(** * govarint: group varint and base-128 codecs

    A shallow embedding of [govarint.go] and the properties of its
    group-varint encoder/decoder pair and of its base-128 encoder.

    Conventions of the embedding:
    - a [uint32] is a [Z] in the range [0, 2^32); a [byte] is a [Byte.byte],
      converted with [Z_of_byte] and [byte_of_Z] (the latter is Go's
      [byte(...)] conversion and truncates modulo 256);
    - a Go [int] is an unbounded [Z]: the counters of this program stay
      far below 2^63;
    - a run-time panic (index or slice bound out of range) is the [Panic]
      outcome of the [Res] monad;
    - [io.Writer] and [io.ByteReader] are type classes, with
      [bytes.Buffer]-like and scripted instances. *)

From Stdlib Require Import ZArith Lia List Bool.
From Stdlib.Strings Require Import Byte.
From stdpp Require Import base list.
Import ListNotations.
Local Open Scope Z_scope.

(** ** Bytes and machine integers *)

Definition Z_of_byte (b : byte) : Z := Z.of_N (Byte.to_N b).

(** Go's conversion [byte(z)]: keeps the low eight bits. *)
Definition byte_of_Z (z : Z) : byte :=
  match Byte.of_N (Z.to_N (z mod 256)) with
  | Some b => b
  | None => x00
  end.

Definition wrap8 (z : Z) : Z := z mod 256.
Definition wrap32 (z : Z) : Z := z mod 2 ^ 32.
Definition wrap64 (z : Z) : Z := z mod 2 ^ 64.

Definition is_uint32 (x : Z) : Prop := 0 <= x < 2 ^ 32.

(** ** Errors and panics *)

(** [io.EOF] and the other errors a reader or writer may return. *)
Inductive error : Type :=
| EOF
| IOError (code : nat).

Definition error_eqb (e1 e2 : error) : bool :=
  match e1, e2 with
  | EOF, EOF => true
  | IOError a, IOError b => Nat.eqb a b
  | _, _ => false
  end.

Inductive panic : Type :=
| IndexOutOfRange
| SliceBoundsOutOfRange.

Inductive Res (A : Type) : Type :=
| Done (a : A)
| Panic (p : panic).
Arguments Done {A} a.
Arguments Panic {A} p.

#[global] Instance Res_ret : MRet Res := fun A a => Done a.
#[global] Instance Res_bind : MBind Res := fun A B f m =>
  match m with
  | Done a => f a
  | Panic p => Panic p
  end.

(** Monadic left fold, the shape of a Go [for ... range] loop whose body may
    panic. *)
Fixpoint foldM {A B : Type} (f : A -> B -> Res A) (a : A) (l : list B) : Res A :=
  match l with
  | [] => Done a
  | x :: l' => a' ← f a x; foldM f a' l'
  end.

(** ** Arrays *)

(** A Go [[4]uint32]. *)
Record array4 : Type := Arr4 { a0 : Z; a1 : Z; a2 : Z; a3 : Z }.

Definition zero4 : array4 := Arr4 0 0 0 0.

Definition get4 (a : array4) (i : Z) : Res Z :=
  match i with
  | 0 => Done (a0 a)
  | 1 => Done (a1 a)
  | 2 => Done (a2 a)
  | 3 => Done (a3 a)
  | _ => Panic IndexOutOfRange
  end.

Definition set4 (a : array4) (i : Z) (v : Z) : Res array4 :=
  match i with
  | 0 => Done (Arr4 v (a1 a) (a2 a) (a3 a))
  | 1 => Done (Arr4 (a0 a) v (a2 a) (a3 a))
  | 2 => Done (Arr4 (a0 a) (a1 a) v (a3 a))
  | 3 => Done (Arr4 (a0 a) (a1 a) (a2 a) v)
  | _ => Panic IndexOutOfRange
  end.

(** [for i, x := range a]: the index/value pairs in order. *)
Definition range4 (a : array4) : list (Z * Z) :=
  [(0, a0 a); (1, a1 a); (2, a2 a); (3, a3 a)].

Definition of_list4 (l : list Z) : array4 :=
  Arr4 (nth 0 l 0) (nth 1 l 0) (nth 2 l 0) (nth 3 l 0).

(** A byte array or slice, index-checked as Go does. *)
Definition getIndex (t : list byte) (i : Z) : Res byte :=
  if (0 <=? i) && (i <? Z.of_nat (length t)) then
    match t !! Z.to_nat i with
    | Some b => Done b
    | None => Panic IndexOutOfRange
    end
  else Panic IndexOutOfRange.

Definition setIndex (t : list byte) (i : Z) (v : byte) : Res (list byte) :=
  if (0 <=? i) && (i <? Z.of_nat (length t)) then Done (<[Z.to_nat i := v]> t)
  else Panic IndexOutOfRange.

(** The slice expression [t[:n]]. *)
Definition sliceTo (t : list byte) (n : Z) : Res (list byte) :=
  if (0 <=? n) && (n <=? Z.of_nat (length t)) then Done (take (Z.to_nat n) t)
  else Panic SliceBoundsOutOfRange.

(** ** Byte sinks and sources *)

(** [io.Writer]: [Write(p)] returns the count written and an error. *)
Class Writer (W : Type) := Write : W -> list byte -> (Z * option error) * W.

(** [io.ByteReader]: [ReadByte()] returns a byte and an error. *)
Class ByteReader (R : Type) := ReadByte : R -> (byte * option error) * R.

(** A [bytes.Buffer] used as a sink: appends, never fails. *)
Definition Buffer : Type := list byte.
#[global] Instance Buffer_Writer : Writer Buffer :=
  fun buf p => ((Z.of_nat (length p), None), buf ++ p).

(** A [bytes.Reader] over a byte slice: [io.EOF] once the slice is consumed. *)
Inductive Reader : Type := NewReader (s : list byte).
#[global] Instance Reader_ByteReader : ByteReader Reader :=
  fun rd =>
    match rd with
    | NewReader [] => ((x00, Some EOF), NewReader [])
    | NewReader (c :: s) => ((c, None), NewReader s)
    end.

(** A scripted source: the outcomes of its successive [ReadByte] calls,
    [io.EOF] for ever after the script. *)
Inductive Script : Type := NewScript (s : list (byte * option error)).
#[global] Instance Script_ByteReader : ByteReader Script :=
  fun sc =>
    match sc with
    | NewScript [] => ((x00, Some EOF), NewScript [])
    | NewScript (o :: s) => (o, NewScript s)
    end.

(** ** The group varint encoder *)

Module U32GroupVarintEncoder.
Section Encoder.
Context {W : Type} `{Writer W}.

Record t : Type := mk { w : W; index : Z; store : array4; temp : list byte }.

(** [NewU32GroupVarintEncoder]: zero-valued fields, a 17-byte [temp]. *)
Definition New (w0 : W) : t := mk w0 0 zero4 (repeat x00 17).

(** [for i := b.index; i < 4; i++ { b.store[i] = 0 }], with [n] the number
    of iterations left. *)
Fixpoint zeroFill (n : nat) (i : Z) (s : array4) : Res array4 :=
  match n with
  | O => Done s
  | S n' => s' ← set4 s i 0; zeroFill n' (i + 1) s'
  end.

Definition shifts : list Z := [24; 16; 8; 0].

(** Body of [for _, shift := range shifts], on (size, temp, length). *)
Definition putByte (x : Z) (st : Z * list byte * Z) (shift : Z)
  : Res (Z * list byte * Z) :=
  let '(size, tmp, length) := st in
  if negb (Z.shiftr x shift =? 0) || (shift =? 0) then
    tmp' ← setIndex tmp length (byte_of_Z (Z.shiftr x shift));
    Done (wrap8 (size + 1), tmp', length + 1)
  else Done st.

(** The new value of [b.temp[0]] in
    [b.temp[0] |= (size - 1) << (uint8(3-i) * 2)], all in 8-bit
    arithmetic. *)
Definition orSize (c : byte) (size i : Z) : byte :=
  byte_of_Z (Z.lor (Z_of_byte c)
    (wrap8 (Z.shiftl (wrap8 (size - 1)) (wrap8 (wrap8 (3 - i) * 2))))).

(** Body of [for i, x := range b.store], on (temp, length). *)
Definition putSlot (st : list byte * Z) (ix : Z * Z) : Res (list byte * Z) :=
  let '(tmp, length) := st in
  let '(i, x) := ix in
  '(size, tmp1, length1) ← foldM (putByte x) (0, tmp, length) shifts;
  c ← getIndex tmp1 0;
  tmp2 ← setIndex tmp1 0 (orSize c size i);
  Done (tmp2, length1).

Definition Flush (b : t) : Res ((Z * option error) * t) :=
  if index b =? 0 then Done ((0, None), b)
  else
    store1 ← zeroFill (Z.to_nat (4 - index b)) (index b) (store b);
    tmp0 ← setIndex (temp b) 0 x00;
    '(tmp1, length1) ← foldM putSlot (tmp0, 1) (range4 store1);
    let length2 :=
      if negb (index b =? 4) then length1 - (4 - index b) else length1 in
    p ← sliceTo tmp1 length2;
    let '((_, err), w') := Write (w b) p in
    Done ((length2, err), mk w' (index b) store1 tmp1).

Definition PutU32 (b : t) (x : Z) : Res ((Z * option error) * t) :=
  let bytesWritten := 0 in
  store1 ← set4 (store b) (index b) x;
  let b1 := mk (w b) (index b + 1) store1 (temp b) in
  if index b1 =? 4 then
    '((n, err), b2) ← Flush b1;
    match err with
    | Some e => Done ((n, Some e), b2)
    | None =>
        Done ((bytesWritten + n, None), mk (w b2) 0 (store b2) (temp b2))
    end
  else Done ((bytesWritten, None), b1).

Definition Close (b : t) : Res t :=
  '(_, b') ← Flush b; Done b'.

(** A client that puts every value of [vs] in turn, stopping at the first
    write error, as a caller checking [err] does. *)
Fixpoint PutAll (b : t) (vs : list Z) : Res (option error * t) :=
  match vs with
  | [] => Done (None, b)
  | x :: vs' =>
      '((_, err), b') ← PutU32 b x;
      match err with
      | Some e => Done (Some e, b')
      | None => PutAll b' vs'
      end
  end.
End Encoder.
Arguments t W : clear implicits.
End U32GroupVarintEncoder.

(** ** The group varint decoder *)

Module U32GroupVarintDecoder.
Section Decoder.
Context {R : Type} `{ByteReader R}.

Record t : Type :=
  mk { r : R; group : array4; pos : Z; finished : bool; capacity : Z }.

(** [NewU32GroupVarintDecoder]. *)
Definition New (r0 : R) : t := mk r0 zero4 4 false 4.

(** The declared size of slot [index]:
    [int((sizeByte>>(uint8(3-index)*2))&0x03) + 1]. *)
Definition slotSize (sizeByte : byte) (index : Z) : Z :=
  Z.land (Z.shiftr (Z_of_byte sizeByte) (wrap8 (wrap8 (3 - index) * 2))) 3 + 1.

(** [for i := 0; i < size; i++ { ... }] with [n] iterations left. The
    result [Some e] is the [return err] of the loop body; leaving through
    [break] shows in [finished]. *)
Fixpoint slotLoop (n : nat) (index : Z) (b : t) : Res (option error * t) :=
  match n with
  | O => Done (None, b)
  | S n' =>
      let '((valByte, err), r') := ReadByte (r b) in
      let b0 := mk r' (group b) (pos b) (finished b) (capacity b) in
      match err with
      | Some e =>
          if error_eqb e EOF then
            Done (None, mk r' (group b) (pos b) true index)
          else Done (Some e, b0)
      | None =>
          g ← get4 (group b0) index;
          grp ← set4 (group b0) index
                  (wrap32 (wrap32 (Z.shiftl g 8) + Z_of_byte valByte));
          slotLoop n' index (mk r' grp (pos b) (finished b) (capacity b))
      end
  end.

(** [for index := 0; index < 4; index++ { ... }] with [n] iterations
    left. *)
Fixpoint groupLoop (n : nat) (index : Z) (sizeByte : byte) (b : t)
  : Res (option error * t) :=
  match n with
  | O => Done (None, b)
  | S n' =>
      grp ← set4 (group b) index 0;
      let size := slotSize sizeByte index in
      '(err, b1) ← slotLoop (Z.to_nat size) index
                     (mk (r b) grp (pos b) (finished b) (capacity b));
      match err with
      | Some e => Done (Some e, b1)
      | None =>
          if finished b1 then Done (None, b1)
          else groupLoop n' (index + 1) sizeByte b1
      end
  end.

Definition getGroup (b : t) : Res (option error * t) :=
  let '((sizeByte, err), r') := ReadByte (r b) in
  let b0 := mk r' (group b) (pos b) (finished b) (capacity b) in
  match err with
  | Some e => Done (Some e, b0)
  | None =>
      '(err1, b1) ← groupLoop 4 0 sizeByte b0;
      match err1 with
      | Some e => Done (Some e, b1)
      | None =>
          Done (None, mk (r b1) (group b1) 0 (finished b1) (capacity b1))
      end
  end.

(** The last two statements of [GetU32]. *)
Definition giveOut (b : t) : Res ((Z * option error) * t) :=
  let b' := mk (r b) (group b) (pos b + 1) (finished b) (capacity b) in
  v ← get4 (group b') (pos b' - 1);
  Done ((v, None), b').

Definition GetU32 (b : t) : Res ((Z * option error) * t) :=
  if pos b =? capacity b then
    if finished b then Done ((0, Some EOF), b)
    else
      '(err, b1) ← getGroup b;
      match err with
      | Some e => Done ((0, Some e), b1)
      | None => giveOut b1
      end
  else giveOut b.

(** [n] successive calls of [GetU32], with what each returned; a panic
    ends the run. *)
Fixpoint GetMany (n : nat) (b : t) : list (Res (Z * option error)) :=
  match n with
  | O => []
  | S n' =>
      match GetU32 b with
      | Done (out, b') => Done out :: GetMany n' b'
      | Panic p => [Panic p]
      end
  end.
End Decoder.
Arguments t R : clear implicits.
End U32GroupVarintDecoder.

Module Enc := U32GroupVarintEncoder.
Module Dec := U32GroupVarintDecoder.

(** Encoding a whole sequence into a fresh buffer: every [PutU32], then
    [Close]; the bytes the buffer holds at the end. *)
Definition encode (vs : list Z) : Res (list byte) :=
  '(_, b) ← Enc.PutAll (Enc.New ([] : Buffer)) vs;
  b' ← Enc.Close b;
  Done (Enc.w b').

(** Decoding [n] values from a byte slice. *)
Definition decode (n : nat) (s : list byte) : list (Res (Z * option error)) :=
  Dec.GetMany n (Dec.New (NewReader s)).


(** ** The base-128 encoder *)

Module binary.
Definition MaxVarintLen32 : nat := 5.
Definition MaxVarintLen64 : nat := 10.

(** Modelled from the spec: [encoding/binary.PutUvarint] belongs to Go's
    standard library and is not under src/; the spec describes it as the
    conventional continuation-bit base-128 routine. Its loop is
    [for x >= 0x80 { buf[i] = byte(x) | 0x80; x >>= 7; i++ }], followed by
    [buf[i] = byte(x); return i + 1]. [room] is [len(buf) - i], the number
    of elements of [buf] from [i] on: with no room left, [buf[i]] is out of
    range. *)
Fixpoint uvarintLoop (room : nat) (buf : list byte) (i : Z) (x : Z)
  : Res (list byte * Z) :=
  match room with
  | O => Panic IndexOutOfRange
  | S room' =>
      if 128 <=? x then
        buf' ← setIndex buf i (byte_of_Z (Z.lor (Z_of_byte (byte_of_Z x)) 128));
        uvarintLoop room' buf' (i + 1) (Z.shiftr x 7)
      else
        buf' ← setIndex buf i (byte_of_Z x);
        Done (buf', i + 1)
  end.

Definition PutUvarint (buf : list byte) (x : Z) : Res (list byte * Z) :=
  uvarintLoop (length buf) buf 0 x.
End binary.

Module Base128Encoder.
Section Encoder.
Context {W : Type} `{Writer W}.

Record t : Type := mk { w : W }.

Definition PutU32 (b : t) (x : Z) : Res ((Z * option error) * t) :=
  let bytes := repeat x00 binary.MaxVarintLen32 in
  '(bytes1, writtenBytes) ← binary.PutUvarint bytes (wrap64 x);
  p ← sliceTo bytes1 writtenBytes;
  let '(out, w') := Write (w b) p in
  Done (out, mk w').

Definition PutU64 (b : t) (x : Z) : Res ((Z * option error) * t) :=
  let bytes := repeat x00 binary.MaxVarintLen64 in
  '(bytes1, writtenBytes) ← binary.PutUvarint bytes x;
  p ← sliceTo bytes1 writtenBytes;
  let '(out, w') := Write (w b) p in
  Done (out, mk w').
End Encoder.
Arguments t W : clear implicits.
End Base128Encoder.

(** ** The wire format, as the specification words it *)

(** Minimal byte width: the least number [n >= 1] of bytes that hold [x]. *)
Definition minimalWidth (x : Z) : Z :=
  if x <? 2 ^ 8 then 1
  else if x <? 2 ^ 16 then 2
  else if x <? 2 ^ 24 then 3
  else 4.

(** The [n] low-order bytes of [x], most significant first. *)
Fixpoint bigEndian (n : nat) (x : Z) : list byte :=
  match n with
  | O => []
  | S n' => byte_of_Z (Z.shiftr x (8 * Z.of_nat n')) :: bigEndian n' x
  end.

Definition slotBytes (x : Z) : list byte :=
  bigEndian (Z.to_nat (minimalWidth x)) x.

(** The value of a big-endian byte string, on top of an accumulator. *)
Definition beValue (g : Z) (bs : list byte) : Z :=
  fold_left (fun a c => wrap32 (wrap32 (Z.shiftl a 8) + Z_of_byte c)) bs g.

(** The control byte for four widths: [width - 1] in two bits per slot,
    slot 0 in the most significant bits. *)
Definition controlByte (w0 w1 w2 w3 : Z) : byte :=
  byte_of_Z (64 * (w0 - 1) + 16 * (w1 - 1) + 4 * (w2 - 1) + (w3 - 1)).

(** The bytes of one group holding the values [vs] (one to four of them):
    the control byte computed with zeros in the missing slots, then the
    bytes of the values present. *)
Definition groupWire (vs : list Z) : list byte :=
  controlByte (minimalWidth (nth 0 vs 0)) (minimalWidth (nth 1 vs 0))
              (minimalWidth (nth 2 vs 0)) (minimalWidth (nth 3 vs 0))
  :: concat (map slotBytes vs).

(** The stream for a sequence: full groups, then one partial group for the
    one to three values left over. *)
Fixpoint wire (vs : list Z) : list byte :=
  match vs with
  | [] => []
  | v0 :: v1 :: v2 :: v3 :: rest => groupWire [v0; v1; v2; v3] ++ wire rest
  | _ => groupWire vs
  end.

(** The sum of the minimal widths of the values [vs]. *)
Definition sumWidths (vs : list Z) : Z :=
  fold_right (fun v a => minimalWidth v + a) 0 vs.

(** The first [L] bytes of the temp buffer: the bytes assembled so far. *)
Definition committed (tmp : list byte) (L : Z) : list byte :=
  take (Z.to_nat L) tmp.

(** Total readers and writers of [array4], for stating results. *)
Definition at4 (a : array4) (i : Z) : Z :=
  match get4 a i with Done v => v | Panic _ => 0 end.

Definition put4 (a : array4) (i : Z) (v : Z) : array4 :=
  match set4 a i v with Done a' => a' | Panic _ => a end.

Definition to_list4 (a : array4) : list Z := [a0 a; a1 a; a2 a; a3 a].

(** Storing the values [vs] at the indices [i], [i + 1], ... *)
Fixpoint fill4 (a : array4) (i : Z) (vs : list Z) : array4 :=
  match vs with
  | [] => a
  | v :: vs' => fill4 (put4 a i v) (i + 1) vs'
  end.

(** [chunked c i Bs]: the byte strings [Bs] have the sizes that the control
    byte [c] declares for the slots [i], [i + 1], ... *)
Fixpoint chunked (c : byte) (i : Z) (Bs : list (list byte)) : Prop :=
  match Bs with
  | [] => True
  | B :: Bs' =>
      Z.of_nat (length B) = U32GroupVarintDecoder.slotSize c i
      /\ chunked c (i + 1) Bs'
  end.

(** [delivers r bs r']: the next [length bs] calls of [ReadByte] on [r]
    succeed, return the bytes [bs] in order, and leave the source as [r']. *)
Fixpoint delivers {R : Type} `{ByteReader R} (r : R) (bs : list byte) (r' : R)
  : Prop :=
  match bs with
  | [] => r' = r
  | c :: bs' => exists r1, ReadByte r = ((c, None), r1) /\ delivers r1 bs' r'
  end.

(** An encoder over an empty buffer that holds a full group, as [PutU32]
    hands it to [Flush]. *)
Definition fullEncoder : U32GroupVarintEncoder.t Buffer :=
  U32GroupVarintEncoder.mk [] 4 (Arr4 4294967295 300 70000 0) (repeat x00 17).

(** Three sources for a fresh decoder: an empty one; one whose first read
    fails; one that delivers a control byte declaring two bytes for slot 0,
    then one byte, then fails. *)
Definition emptySource : Script := NewScript [].
Definition brokenSource : Script := NewScript [(x00, Some (IOError 3))].
Definition tornSource : Script :=
  NewScript [(x40, None); (x01, None); (x00, Some (IOError 7))].

(** What a successful [GetU32] returns for value [v], and the end-of-data
    answer. *)
Definition got (v : Z) : Res (Z * option error) := Done (v, None).
Definition eof : Res (Z * option error) := Done (0, Some EOF).

(** The uvarint bytes of [x], at most [n] of them. *)
Fixpoint uvarintBytes (n : nat) (x : Z) : list byte :=
  match n with
  | O => []
  | S n' =>
      if 128 <=? x then
        byte_of_Z (Z.lor (Z_of_byte (byte_of_Z x)) 128)
          :: uvarintBytes n' (Z.shiftr x 7)
      else [byte_of_Z x]
  end.

(** ** A failing sink, the base-128 decoder, and stream shapes *)

(** A sink that has failed: every [Write] writes nothing and returns its
    error. *)
Inductive FailedSink : Type := NewFailedSink (e : error).
#[global] Instance FailedSink_Writer : Writer FailedSink :=
  fun f p => match f with NewFailedSink e => ((0, Some e), f) end.

(** The errors of [binary.ReadUvarint]: the error of the source, or one of
    [io.ErrUnexpectedEOF] and the overflow error of [encoding/binary]. *)
Inductive uvarintError : Type :=
| SourceError (e : error)
| ErrUnexpectedEOF
| errOverflow.

Module binaryRead.
Section Read.
Context {R : Type} `{ByteReader R}.

(** Modelled from the spec: [encoding/binary.ReadUvarint] belongs to Go's
    standard library and is not under src/; the spec describes it as the
    conventional continuation-bit base-128 routine. Its loop is
    [for i := 0; i < MaxVarintLen64; i++], reading one byte per turn: a read
    error is returned ([io.EOF] after the first byte as
    [io.ErrUnexpectedEOF]); a byte below 0x80 ends the value
    ([x | uint64(b)<<s], or overflow for a tenth byte above 1); another byte
    adds its low seven bits, [x |= uint64(b&0x7f) << s; s += 7]. [n] is the
    number of turns left. *)
Fixpoint readLoop (n : nat) (i x s : Z) (r : R) : (Z * option uvarintError) * R :=
  match n with
  | O => ((x, Some errOverflow), r)
  | S n' =>
      let '((b, err), r') := ReadByte r in
      match err with
      | Some e =>
          ((x, Some (if (0 <? i) && error_eqb e EOF then ErrUnexpectedEOF
                     else SourceError e)), r')
      | None =>
          if Z_of_byte b <? 128 then
            if (i =? 9) && (1 <? Z_of_byte b) then ((x, Some errOverflow), r')
            else ((Z.lor x (wrap64 (Z.shiftl (Z_of_byte b) s)), None), r')
          else
            readLoop n' (i + 1)
              (Z.lor x (wrap64 (Z.shiftl (Z.land (Z_of_byte b) 127) s)))
              (s + 7) r'
      end
  end.

Definition ReadUvarint (r : R) : (Z * option uvarintError) * R :=
  readLoop binary.MaxVarintLen64 0 0 0 r.
End Read.
End binaryRead.

Module Base128Decoder.
Section Decoder.
Context {R : Type} `{ByteReader R}.

Record t : Type := mk { r : R }.

Definition GetU32 (b : t) : (Z * option uvarintError) * t :=
  let '((v, err), r') := binaryRead.ReadUvarint (r b) in
  ((wrap32 v, err), mk r').

Definition GetU64 (b : t) : (Z * option uvarintError) * t :=
  let '((v, err), r') := binaryRead.ReadUvarint (r b) in
  ((v, err), mk r').
End Decoder.
Arguments t R : clear implicits.
End Base128Decoder.

Definition is_uint64 (x : Z) : Prop := 0 <= x < 2 ^ 64.

(** The value of a base-128 byte string, least significant group first,
    each byte counted for its low seven bits. *)
Fixpoint uvarintValue (bs : list byte) : Z :=
  match bs with
  | [] => 0
  | c :: bs' => Z.land (Z_of_byte c) 127 + 128 * uvarintValue bs'
  end.

(** [parses s vs]: the byte slice [s] is a sequence of whole groups, each a
    control byte and the bytes it declares for its four slots, ended either
    by the end of the slice or by a group cut in slot 1, 2 or 3; [vs] are the
    big-endian values of the whole slots, in order. The widths need not be
    minimal. *)
Inductive parses : list byte -> list Z -> Prop :=
| parses_end : parses [] []
| parses_group (c : byte) (Bs : list (list byte)) (rest : list byte)
               (vs : list Z) :
    length Bs = 4%nat -> chunked c 0 Bs -> parses rest vs ->
    parses (c :: concat Bs ++ rest) (map (beValue 0) Bs ++ vs)
| parses_cut (c : byte) (Bs : list (list byte)) (P : list byte) :
    (1 <= length Bs <= 3)%nat -> chunked c 0 Bs ->
    Z.of_nat (length P) < U32GroupVarintDecoder.slotSize c (Z.of_nat (length Bs)) ->
    parses (c :: concat Bs ++ P) (map (beValue 0) Bs).

(** Encoders with three values pending, over an empty buffer and over a
    failed sink. *)
Definition threeEncoder : U32GroupVarintEncoder.t Buffer :=
  U32GroupVarintEncoder.mk [] 3 (Arr4 1 300 70000 9) (repeat x00 17).
Definition failedEncoder : U32GroupVarintEncoder.t FailedSink :=
  U32GroupVarintEncoder.mk (NewFailedSink (IOError 5)) 3 (Arr4 1 300 70000 9)
    (repeat x00 17).

(** Encoders as a stream leaves them: [staleEncoder] has two values pending
    while the rest of [store] and all of [temp] still hold what an earlier
    group of large values put there; [paddedEncoder] holds the same two
    values followed by zeros as a full group. *)
Definition staleEncoder : U32GroupVarintEncoder.t Buffer :=
  U32GroupVarintEncoder.mk [x2a] 2 (Arr4 5 300 4294967295 4294967295)
    (repeat xff 17).
Definition paddedEncoder : U32GroupVarintEncoder.t Buffer :=
  U32GroupVarintEncoder.mk [x2a] 4 (Arr4 5 300 0 0) (repeat xff 17).

(** * Properties *)

(** ** Bytes *)

Lemma Z_of_byte_range (b : byte) : 0 <= Z_of_byte b < 256.
Proof.
  unfold Z_of_byte. pose proof (Byte.to_N_bounded b). lia.
Qed.

Lemma Z_of_byte_of_Z (z : Z) : Z_of_byte (byte_of_Z z) = z mod 256.
Proof.
  unfold Z_of_byte, byte_of_Z.
  pose proof (Z.mod_pos_bound z 256 ltac:(lia)) as Hb.
  destruct (Byte.of_N (Z.to_N (z mod 256))) as [b|] eqn:E.
  - apply Byte.to_of_N in E. rewrite E. lia.
  - apply Byte.of_N_None_iff in E. lia.
Qed.

Lemma byte_of_Z_of_byte (b : byte) : byte_of_Z (Z_of_byte b) = b.
Proof.
  unfold byte_of_Z. rewrite Z.mod_small by apply Z_of_byte_range.
  unfold Z_of_byte. rewrite N2Z.id, Byte.of_to_N. reflexivity.
Qed.

(** ** Index-checked buffers *)

(** Writing at the commit mark extends the committed bytes by one. *)
Lemma setIndex_committed (t : list byte) (L : Z) (v : byte) :
  0 <= L < Z.of_nat (length t) ->
  exists t', setIndex t L v = Done t'
    /\ length t' = length t
    /\ committed t' (L + 1) = committed t L ++ [v].
Proof.
  intros HL. exists (<[Z.to_nat L := v]> t). split; [|split].
  - unfold setIndex.
    replace (0 <=? L) with true by (symmetry; apply Z.leb_le; lia).
    replace (L <? Z.of_nat (length t)) with true by (symmetry; apply Z.ltb_lt; lia).
    reflexivity.
  - apply length_insert.
  - unfold committed. replace (Z.to_nat (L + 1)) with (S (Z.to_nat L)) by lia.
    rewrite (take_S_r _ _ v).
    + rewrite take_insert_ge by lia. reflexivity.
    + apply list_lookup_insert_eq. lia.
Qed.

(** Rewriting element 0 of a buffer with committed bytes [c :: body]. *)
Lemma control_committed (t : list byte) (L : Z) (c v : byte) (body : list byte) :
  committed t L = c :: body ->
  getIndex t 0 = Done c
  /\ exists t', setIndex t 0 v = Done t'
       /\ length t' = length t
       /\ committed t' L = v :: body.
Proof.
  unfold committed, getIndex, setIndex. intros Hc.
  destruct t as [|c0 t]; [now rewrite take_nil in Hc|].
  destruct (Z.to_nat L) as [|n] eqn:En; [discriminate|].
  simpl in Hc. injection Hc as -> Hb.
  replace (0 <? Z.of_nat (length (c :: t))) with true
    by (symmetry; apply Z.ltb_lt; simpl length; lia).
  simpl. split; [reflexivity|].
  eexists. split; [reflexivity|]. split; [reflexivity|].
  simpl. now rewrite Hb.
Qed.

(** ** Minimal widths *)

Lemma minimalWidth_cases (x : Z) :
  is_uint32 x ->
  (x < 2 ^ 8 /\ minimalWidth x = 1)
  \/ (2 ^ 8 <= x < 2 ^ 16 /\ minimalWidth x = 2)
  \/ (2 ^ 16 <= x < 2 ^ 24 /\ minimalWidth x = 3)
  \/ (2 ^ 24 <= x /\ minimalWidth x = 4).
Proof.
  intros [H0 H1]. unfold minimalWidth.
  destruct (Z.ltb_spec x (2 ^ 8)); [left; lia|].
  destruct (Z.ltb_spec x (2 ^ 16)); [right; left; lia|].
  destruct (Z.ltb_spec x (2 ^ 24)); [right; right; left; lia|].
  right; right; right; lia.
Qed.

Lemma minimalWidth_range (x : Z) : 1 <= minimalWidth x <= 4.
Proof.
  unfold minimalWidth.
  repeat match goal with |- context [if ?c then _ else _] => destruct c end; lia.
Qed.

Lemma slotBytes_length (x : Z) :
  Z.of_nat (length (slotBytes x)) = minimalWidth x.
Proof.
  unfold slotBytes. pose proof (minimalWidth_range x) as Hw.
  assert (Hl : forall n y, length (bigEndian n y) = n)
    by (induction n; intros; simpl; congruence).
  rewrite Hl. lia.
Qed.

(** The test [(x>>shift) != 0] of the encoder is the comparison of [x] with
    [2^shift]. *)
Lemma shiftr_eqb_0 (x s : Z) :
  0 <= x -> 0 <= s -> (Z.shiftr x s =? 0) = (x <? 2 ^ s).
Proof.
  intros Hx Hs. rewrite Z.shiftr_div_pow2 by lia.
  assert (Hp : 0 < 2 ^ s) by (apply Z.pow_pos_nonneg; lia).
  destruct (Z.ltb_spec x (2 ^ s)) as [Hlt|Hge].
  - apply Z.eqb_eq. apply Z.div_small. lia.
  - apply Z.eqb_neq. intros E.
    pose proof (Z.div_le_mono (2 ^ s) x (2 ^ s) Hp Hge) as Hd.
    rewrite Z.div_same in Hd by lia. lia.
Qed.

(** ** The monad and its loops *)

Lemma bind_Done {A B : Type} (a : A) (f : A -> Res B) : (Done a ≫= f) = f a.
Proof. reflexivity. Qed.

Lemma foldM_cons {A B : Type} (f : A -> B -> Res A) (a : A) (x : B) (l : list B) :
  foldM f a (x :: l) = (f a x ≫= fun a' => foldM f a' l).
Proof. reflexivity. Qed.

Lemma foldM_nil {A B : Type} (f : A -> B -> Res A) (a : A) :
  foldM f a [] = Done a.
Proof. reflexivity. Qed.

(** ** The encoder's loops *)

Lemma putByte_skip (x size : Z) (tmp : list byte) (L s : Z) :
  0 <= x -> 0 < s -> x < 2 ^ s ->
  Enc.putByte x (size, tmp, L) s = Done (size, tmp, L).
Proof.
  intros Hx Hs Hlt. unfold Enc.putByte.
  rewrite shiftr_eqb_0 by lia.
  replace (x <? 2 ^ s) with true by (symmetry; apply Z.ltb_lt; lia).
  replace (s =? 0) with false by (symmetry; apply Z.eqb_neq; lia).
  reflexivity.
Qed.

Lemma putByte_emit (x size : Z) (tmp : list byte) (L s : Z) :
  0 <= x -> 0 <= s -> 2 ^ s <= x \/ s = 0 ->
  0 <= L < Z.of_nat (length tmp) ->
  exists tmp',
    Enc.putByte x (size, tmp, L) s = Done (wrap8 (size + 1), tmp', L + 1)
    /\ length tmp' = length tmp
    /\ committed tmp' (L + 1) = committed tmp L ++ [byte_of_Z (Z.shiftr x s)].
Proof.
  intros Hx Hs Hge HL. unfold Enc.putByte.
  destruct (setIndex_committed tmp L (byte_of_Z (Z.shiftr x s)) HL)
    as (tmp' & E & Hlen & Hc).
  exists tmp'. split; [|now split].
  assert (Hc' : negb (Z.shiftr x s =? 0) || (s =? 0) = true).
  { destruct Hge as [Hge| ->]; [|now rewrite orb_true_r].
    rewrite shiftr_eqb_0 by lia.
    replace (x <? 2 ^ s) with false by (symmetry; apply Z.ltb_ge; lia).
    reflexivity. }
  rewrite Hc', E. reflexivity.
Qed.

Ltac emit_step x s :=
  rewrite foldM_cons;
  match goal with
  | |- context [Enc.putByte x (?size, ?tmp, ?L) s] =>
      let t := fresh "tmp" in
      let E := fresh "E" in
      let Hl := fresh "Hlen" in
      let Hc := fresh "Hcom" in
      destruct (putByte_emit x size tmp L s) as (t & E & Hl & Hc);
      [lia | lia | lia | lia |];
      rewrite E, bind_Done; clear E
  end.

Ltac skip_step x s :=
  rewrite foldM_cons, (putByte_skip x _ _ _ s), bind_Done by lia.

(** The loop over [shifts] emits exactly the minimal big-endian bytes of
    [x], at the commit mark, and counts them in [size]. *)
Lemma putBytes_spec (x : Z) (tmp : list byte) (L : Z) :
  is_uint32 x -> 0 <= L -> L + 4 <= Z.of_nat (length tmp) ->
  exists tmp',
    foldM (Enc.putByte x) (0, tmp, L) Enc.shifts
      = Done (minimalWidth x, tmp', L + minimalWidth x)
    /\ length tmp' = length tmp
    /\ committed tmp' (L + minimalWidth x) = committed tmp L ++ slotBytes x.
Proof.
  intros Hx HL Hroom. pose proof Hx as [Hx0 Hx1].
  unfold Enc.shifts.
  assert (P8 : 2 ^ 8 < 2 ^ 16) by lia.
  assert (P16 : 2 ^ 16 < 2 ^ 24) by lia.
  unfold slotBytes.
  destruct (minimalWidth_cases x Hx) as [[Hr ->]|[[Hr ->]|[[Hr ->]|[Hr ->]]]].
  - skip_step x 24. skip_step x 16. skip_step x 8. emit_step x 0.
    rewrite foldM_nil. exists tmp0. split; [reflexivity|]. split; [lia|].
    rewrite Hcom. reflexivity.
  - skip_step x 24. skip_step x 16. emit_step x 8. emit_step x 0.
    rewrite foldM_nil. exists tmp1.
    replace (L + 2) with (L + 1 + 1) by lia.
    split; [reflexivity|]. split; [lia|].
    rewrite Hcom0, Hcom, <- app_assoc. reflexivity.
  - skip_step x 24. emit_step x 16. emit_step x 8. emit_step x 0.
    rewrite foldM_nil. exists tmp2.
    replace (L + 3) with (L + 1 + 1 + 1) by lia.
    split; [reflexivity|]. split; [lia|].
    rewrite Hcom1, Hcom0, Hcom, <- !app_assoc. reflexivity.
  - emit_step x 24. emit_step x 16. emit_step x 8. emit_step x 0.
    rewrite foldM_nil. exists tmp3.
    replace (L + 4) with (L + 1 + 1 + 1 + 1) by lia.
    split; [reflexivity|]. split; [lia|].
    rewrite Hcom2, Hcom1, Hcom0, Hcom, <- !app_assoc. reflexivity.
Qed.

Lemma putSlot_spec (x i : Z) (tmp : list byte) (L : Z) (c : byte)
      (body : list byte) :
  is_uint32 x -> 0 <= L -> L + 4 <= Z.of_nat (length tmp) ->
  committed tmp L = c :: body ->
  exists tmp',
    Enc.putSlot (tmp, L) (i, x) = Done (tmp', L + minimalWidth x)
    /\ length tmp' = length tmp
    /\ committed tmp' (L + minimalWidth x)
       = Enc.orSize c (minimalWidth x) i :: body ++ slotBytes x.
Proof.
  intros Hx HL Hroom Hc. unfold Enc.putSlot.
  destruct (putBytes_spec x tmp L Hx HL Hroom) as (tmp1 & E1 & Hlen1 & Hc1).
  rewrite E1, bind_Done. rewrite Hc in Hc1. simpl in Hc1.
  destruct (control_committed tmp1 _ c (Enc.orSize c (minimalWidth x) i) _ Hc1)
    as (Eg & tmp2 & Es & Hlen2 & Hc2).
  rewrite Eg, bind_Done, Es, bind_Done.
  exists tmp2. split; [reflexivity|]. split; [lia | exact Hc2].
Qed.

(** Four two-bit fields OR-ed into a zero byte make the control byte. *)
Lemma orSize_controlByte (w0 w1 w2 w3 : Z) :
  1 <= w0 <= 4 -> 1 <= w1 <= 4 -> 1 <= w2 <= 4 -> 1 <= w3 <= 4 ->
  Enc.orSize (Enc.orSize (Enc.orSize (Enc.orSize x00 w0 0) w1 1) w2 2) w3 3
  = controlByte w0 w1 w2 w3.
Proof.
  intros H0 H1 H2 H3.
  assert (C0 : w0 = 1 \/ w0 = 2 \/ w0 = 3 \/ w0 = 4) by lia.
  assert (C1 : w1 = 1 \/ w1 = 2 \/ w1 = 3 \/ w1 = 4) by lia.
  assert (C2 : w2 = 1 \/ w2 = 2 \/ w2 = 3 \/ w2 = 4) by lia.
  assert (C3 : w3 = 1 \/ w3 = 2 \/ w3 = 3 \/ w3 = 4) by lia.
  clear H0 H1 H2 H3.
  destruct C0 as [->|[->|[->| ->]]]; destruct C1 as [->|[->|[->| ->]]];
    destruct C2 as [->|[->|[->| ->]]]; destruct C3 as [->|[->|[->| ->]]];
    vm_compute; reflexivity.
Qed.

(** The decoder reads back from the control byte the width of each slot. *)
Lemma slotSize_controlByte (w0 w1 w2 w3 : Z) :
  1 <= w0 <= 4 -> 1 <= w1 <= 4 -> 1 <= w2 <= 4 -> 1 <= w3 <= 4 ->
  Dec.slotSize (controlByte w0 w1 w2 w3) 0 = w0
  /\ Dec.slotSize (controlByte w0 w1 w2 w3) 1 = w1
  /\ Dec.slotSize (controlByte w0 w1 w2 w3) 2 = w2
  /\ Dec.slotSize (controlByte w0 w1 w2 w3) 3 = w3.
Proof.
  intros H0 H1 H2 H3.
  assert (C0 : w0 = 1 \/ w0 = 2 \/ w0 = 3 \/ w0 = 4) by lia.
  assert (C1 : w1 = 1 \/ w1 = 2 \/ w1 = 3 \/ w1 = 4) by lia.
  assert (C2 : w2 = 1 \/ w2 = 2 \/ w2 = 3 \/ w2 = 4) by lia.
  assert (C3 : w3 = 1 \/ w3 = 2 \/ w3 = 3 \/ w3 = 4) by lia.
  clear H0 H1 H2 H3.
  destruct C0 as [->|[->|[->| ->]]]; destruct C1 as [->|[->|[->| ->]]];
    destruct C2 as [->|[->|[->| ->]]]; destruct C3 as [->|[->|[->| ->]]];
    vm_compute; repeat split; reflexivity.
Qed.

Lemma sliceTo_committed (t : list byte) (n : Z) :
  0 <= n <= Z.of_nat (length t) -> sliceTo t n = Done (committed t n).
Proof.
  intros Hn. unfold sliceTo.
  replace (0 <=? n) with true by (symmetry; apply Z.leb_le; lia).
  replace (n <=? Z.of_nat (length t)) with true by (symmetry; apply Z.leb_le; lia).
  reflexivity.
Qed.

(** Dropping the last [k] committed bytes. *)
Lemma committed_truncate (t : list byte) (n k : Z) (l1 l2 : list byte) :
  committed t n = l1 ++ l2 -> 0 <= n <= Z.of_nat (length t) ->
  Z.of_nat (length l2) = k ->
  committed t (n - k) = l1.
Proof.
  unfold committed. intros Hc Hn Hk.
  assert (Hlen : length (l1 ++ l2) = Z.to_nat n)
    by (rewrite <- Hc, length_take; lia).
  rewrite length_app in Hlen.
  replace (take (Z.to_nat (n - k)) t)
    with (take (Z.to_nat (n - k)) (take (Z.to_nat n) t))
    by (rewrite take_take; f_equal; lia).
  rewrite Hc. replace (Z.to_nat (n - k)) with (length l1) by lia.
  apply take_app_length.
Qed.

Ltac slot_step i x :=
  rewrite foldM_cons;
  match goal with
  | Hc : committed ?tmp ?L = ?c :: ?body
    |- context [Enc.putSlot (?tmp, ?L) (i, x)] =>
      let t := fresh "tmp" in
      let E := fresh "E" in
      let Hl := fresh "Hlen" in
      let Hc' := fresh "Hcom" in
      pose proof (minimalWidth_range x);
      destruct (putSlot_spec x i tmp L c body) as (t & E & Hl & Hc');
      [assumption | lia | lia | exact Hc |];
      rewrite E, bind_Done; clear E Hc
  end.

(** Assembling a full group in [temp]: the control byte and the minimal
    bytes of the four values are committed. *)
Lemma assemble_spec (v0 v1 v2 v3 : Z) (tmp : list byte) :
  is_uint32 v0 -> is_uint32 v1 -> is_uint32 v2 -> is_uint32 v3 ->
  length tmp = 17%nat ->
  exists tmp0 tmp',
    setIndex tmp 0 x00 = Done tmp0
    /\ foldM Enc.putSlot (tmp0, 1) (range4 (Arr4 v0 v1 v2 v3))
       = Done (tmp', 1 + minimalWidth v0 + minimalWidth v1
                      + minimalWidth v2 + minimalWidth v3)
    /\ length tmp' = 17%nat
    /\ committed tmp'
         (1 + minimalWidth v0 + minimalWidth v1 + minimalWidth v2
          + minimalWidth v3)
       = controlByte (minimalWidth v0) (minimalWidth v1) (minimalWidth v2)
           (minimalWidth v3)
         :: slotBytes v0 ++ slotBytes v1 ++ slotBytes v2 ++ slotBytes v3.
Proof.
  intros H0 H1 H2 H3 Hlen.
  destruct tmp as [|t0 tmp]; [discriminate|].
  assert (Hc0 : committed (t0 :: tmp) 1 = t0 :: []) by reflexivity.
  destruct (control_committed _ _ _ x00 _ Hc0) as (_ & tmp0 & E0 & Hl0 & Hcom0).
  exists tmp0. unfold range4; simpl a0; simpl a1; simpl a2; simpl a3.
  rewrite Hlen in Hl0.
  slot_step 0 v0. slot_step 1 v1. slot_step 2 v2. slot_step 3 v3.
  rewrite foldM_nil. exists tmp4.
  split; [exact E0|]. split; [reflexivity|]. split; [lia|].
  match goal with Hc : committed tmp4 _ = _ |- _ => rewrite Hc end.
  rewrite orSize_controlByte by assumption.
  simpl. rewrite <- !app_assoc. reflexivity.
Qed.

Lemma is_uint32_0 : is_uint32 0.
Proof. unfold is_uint32. lia. Qed.

Lemma groupWire_length (vs : list Z) :
  Z.of_nat (length (groupWire vs)) = 1 + sumWidths vs.
Proof.
  unfold groupWire. cbn [length].
  assert (E : Z.of_nat (length (concat (map slotBytes vs))) = sumWidths vs).
  { induction vs as [|v vs IH]; [reflexivity|].
    cbn [map concat sumWidths fold_right].
    rewrite length_app, Nat2Z.inj_add, slotBytes_length.
    unfold sumWidths in IH. lia. }
  lia.
Qed.

Lemma sumWidths_range (vs : list Z) :
  Z.of_nat (length vs) <= sumWidths vs <= 4 * Z.of_nat (length vs).
Proof.
  induction vs as [|v vs IH]; cbn [sumWidths fold_right length]; [lia|].
  pose proof (minimalWidth_range v). unfold sumWidths in IH. lia.
Qed.

Section FlushFacts.
Context {W : Type} `{Writer W}.

(** The common run of [Flush] once [temp] holds the assembled group of
    [vs] followed by the bytes [pad] of the missing slots. *)
Local Ltac flush_run vs n pad tmp tmp0 tmp' E0 E1 Hl Hc :=
  change (Z.of_nat (length vs)) with n;
  unfold Enc.Flush; cbn [Enc.index Enc.store Enc.temp Enc.w];
  change (n =? 0) with false; cbv iota;
  match goal with
  | |- context [Enc.zeroFill ?k ?i ?s] =>
      change (Enc.zeroFill k i s) with (Done (of_list4 vs))
  end;
  rewrite bind_Done; cbv beta;
  rewrite E0, bind_Done; cbv beta;
  match type of E1 with
  | foldM _ _ ?rg = _ => change (range4 (of_list4 vs)) with rg
  end;
  rewrite E1, bind_Done; cbv beta iota;
  let Hc' := fresh "Hc'" in
  let Hgl := fresh "Hgl" in
  let Hsr := fresh "Hsr" in
  match type of Hc with
  | committed _ ?L = _ =>
      assert (Hc' : committed tmp' L = groupWire vs ++ pad)
        by (rewrite Hc; unfold groupWire; change (slotBytes 0) with [x00];
            cbn [nth map concat app];
            rewrite ?app_nil_r, <- ?app_assoc; reflexivity)
  end;
  pose proof (groupWire_length vs) as Hgl;
  pose proof (sumWidths_range vs) as Hsr;
  cbn [sumWidths fold_right length] in Hgl, Hsr;
  change (minimalWidth 0) with 1 in *;
  exists tmp'; split; [|exact Hl];
  first
    [ change (negb (n =? 4)) with true; cbv iota;
      change (4 - n) with (Z.of_nat (length pad));
      rewrite sliceTo_committed by (cbn [length]; lia);
      rewrite (committed_truncate _ _ _ _ _ Hc' ltac:(lia) eq_refl)
    | change (negb (n =? 4)) with false; cbv iota;
      rewrite sliceTo_committed by lia;
      rewrite Hc', app_nil_r ];
  rewrite bind_Done; cbv beta;
  destruct (Write _ (groupWire vs)) as [[? ?] ?]; cbn [fst snd];
  do 3 f_equal; cbn [length] in *; lia.

(** What [Flush] does with [vs] pending: it hands [groupWire vs] to the
    writer, returns its length and the writer's error, and leaves [index]
    as it was. *)
Lemma Flush_spec (b : Enc.t W) (vs : list Z) :
  Forall is_uint32 vs -> (1 <= length vs <= 4)%nat ->
  Enc.index b = Z.of_nat (length vs) ->
  take (length vs) (to_list4 (Enc.store b)) = vs ->
  length (Enc.temp b) = 17%nat ->
  exists tmp',
    Enc.Flush b =
      Done ((Z.of_nat (length (groupWire vs)),
             snd (fst (Write (Enc.w b) (groupWire vs)))),
            Enc.mk (snd (Write (Enc.w b) (groupWire vs)))
                   (Enc.index b) (of_list4 vs) tmp')
    /\ length tmp' = 17%nat.
Proof.
  intros Hvs Hn Hi Hst Htmp.
  destruct b as [w i [s0 s1 s2 s3] tmp].
  cbn [Enc.index Enc.store Enc.temp Enc.w] in *. subst i.
  pose proof is_uint32_0 as Hz.
  destruct vs as [|v0 [|v1 [|v2 [|v3 [|? ?]]]]]; simpl in Hn; try lia;
    simpl in Hst; simplify_eq; clear Hn.
  - inversion_clear Hvs as [|? ? H0 _].
    destruct (assemble_spec v0 0 0 0 tmp H0 Hz Hz Hz Htmp)
      as (tmp0 & tmp' & E0 & E1 & Hl & Hc).
    flush_run [v0] 1 [x00; x00; x00] tmp tmp0 tmp' E0 E1 Hl Hc.
  - inversion_clear Hvs as [|? ? H0 Hvs']. inversion_clear Hvs' as [|? ? H1 _].
    destruct (assemble_spec v0 v1 0 0 tmp H0 H1 Hz Hz Htmp)
      as (tmp0 & tmp' & E0 & E1 & Hl & Hc).
    flush_run [v0; v1] 2 [x00; x00] tmp tmp0 tmp' E0 E1 Hl Hc.
  - inversion_clear Hvs as [|? ? H0 Hvs']. inversion_clear Hvs' as [|? ? H1 Hvs''].
    inversion_clear Hvs'' as [|? ? H2 _].
    destruct (assemble_spec v0 v1 v2 0 tmp H0 H1 H2 Hz Htmp)
      as (tmp0 & tmp' & E0 & E1 & Hl & Hc).
    flush_run [v0; v1; v2] 3 [x00] tmp tmp0 tmp' E0 E1 Hl Hc.
  - inversion_clear Hvs as [|? ? H0 Hvs']. inversion_clear Hvs' as [|? ? H1 Hvs''].
    inversion_clear Hvs'' as [|? ? H2 Hvs']. inversion_clear Hvs' as [|? ? H3 _].
    destruct (assemble_spec v0 v1 v2 v3 tmp H0 H1 H2 H3 Htmp)
      as (tmp0 & tmp' & E0 & E1 & Hl & Hc).
    flush_run [v0; v1; v2; v3] 4 (@nil byte) tmp tmp0 tmp' E0 E1 Hl Hc.
Qed.
End FlushFacts.

(** ** Encoding a stream *)

(** Induction over a list four elements at a time. *)
Lemma list_ind4 {A : Type} (P : list A -> Prop) :
  P [] -> (forall a, P [a]) -> (forall a b, P [a; b]) ->
  (forall a b c, P [a; b; c]) ->
  (forall a b c d l, P l -> P (a :: b :: c :: d :: l)) ->
  forall l, P l.
Proof.
  intros H0 H1 H2 H3 H4 l.
  enough (G : P l /\ (forall a, P (a :: l)) /\ (forall a b, P (a :: b :: l))
              /\ (forall a b c, P (a :: b :: c :: l))) by apply G.
  induction l as [|x l (IH0 & IH1 & IH2 & IH3)]; [now auto|].
  repeat split; auto.
Qed.

Lemma Forall_uint32_4 (v0 v1 v2 v3 : Z) (l : list Z) :
  Forall is_uint32 (v0 :: v1 :: v2 :: v3 :: l) ->
  Forall is_uint32 [v0; v1; v2; v3] /\ Forall is_uint32 l.
Proof.
  intros Hv. inversion_clear Hv as [|? ? H0 Hv1].
  inversion_clear Hv1 as [|? ? H1 Hv2]. inversion_clear Hv2 as [|? ? H2 Hv3].
  inversion_clear Hv3 as [|? ? H3 Hv4]. split; [|assumption].
  repeat (apply List.Forall_cons; [assumption|]). apply List.Forall_nil.
Qed.

Lemma PutAll_app {W : Type} `{Writer W} (b : Enc.t W) (l1 l2 : list Z) :
  Enc.PutAll b (l1 ++ l2)
  = Enc.PutAll b l1 ≫= (fun '(err, b') =>
      match err with
      | Some e => Done (Some e, b')
      | None => Enc.PutAll b' l2
      end).
Proof.
  revert b. induction l1 as [|x l1 IH]; intros b; [reflexivity|].
  cbn [Enc.PutAll app].
  destruct (Enc.PutU32 b x) as [[[n [e|]] b1]|p]; try reflexivity.
  rewrite !bind_Done. apply IH.
Qed.

(** Four puts into an empty encoder flush one full group and leave the
    encoder empty again. *)
Lemma PutAll_group (b : Enc.t Buffer) (v0 v1 v2 v3 : Z) (l : list Z) :
  Forall is_uint32 [v0; v1; v2; v3] ->
  Enc.index b = 0 -> length (Enc.temp b) = 17%nat ->
  exists b',
    Enc.PutAll b (v0 :: v1 :: v2 :: v3 :: l) = Enc.PutAll b' l
    /\ Enc.index b' = 0 /\ length (Enc.temp b') = 17%nat
    /\ Enc.w b' = Enc.w b ++ groupWire [v0; v1; v2; v3].
Proof.
  intros Hv Hi Ht. destruct b as [w i [s0 s1 s2 s3] tmp].
  cbn [Enc.index Enc.temp Enc.w] in *. subst i.
  destruct (Flush_spec (Enc.mk w 4 (Arr4 v0 v1 v2 v3) tmp) [v0; v1; v2; v3])
    as (tmp' & E & Hl); [assumption | simpl; lia | reflexivity | reflexivity
                        | assumption |].
  cbn [Enc.index Enc.temp Enc.w Enc.store] in E.
  exists (Enc.mk (w ++ groupWire [v0; v1; v2; v3]) 0 (Arr4 v0 v1 v2 v3) tmp').
  split; [|now auto].
  change (v0 :: v1 :: v2 :: v3 :: l) with ([v0; v1; v2] ++ v3 :: l).
  rewrite PutAll_app.
  change (Enc.PutAll (Enc.mk w 0 (Arr4 s0 s1 s2 s3) tmp) [v0; v1; v2])
    with (Done (@None error, Enc.mk w 3 (Arr4 v0 v1 v2 s3) tmp)).
  rewrite bind_Done. cbv beta iota. cbn [Enc.PutAll].
  change (Enc.PutU32 (Enc.mk w 3 (Arr4 v0 v1 v2 s3) tmp) v3)
    with (Enc.Flush (Enc.mk w 4 (Arr4 v0 v1 v2 v3) tmp) ≫=
           (fun '((n, err), b2) =>
              match err with
              | Some e => Done ((n, Some e), b2)
              | None => Done ((0 + n, @None error),
                              Enc.mk (Enc.w b2) 0 (Enc.store b2) (Enc.temp b2))
              end)).
  rewrite E. reflexivity.
Qed.

(** [Close] with one to three values pending writes their partial group. *)
Lemma Close_partial (b : Enc.t Buffer) (vs : list Z) :
  Forall is_uint32 vs -> (length vs <= 3)%nat ->
  Enc.index b = 0 -> length (Enc.temp b) = 17%nat ->
  exists b' b'',
    Enc.PutAll b vs = Done (None, b')
    /\ Enc.Close b' = Done b''
    /\ Enc.w b'' = Enc.w b ++ wire vs.
Proof.
  intros Hv Hn Hi Ht. destruct b as [w i [s0 s1 s2 s3] tmp].
  cbn [Enc.index Enc.temp Enc.w] in *. subst i.
  destruct vs as [|v0 [|v1 [|v2 [|? ?]]]]; simpl in Hn; try lia.
  - eexists _, _. split; [reflexivity|]. split; [reflexivity|].
    cbn [Enc.w wire]. now rewrite app_nil_r.
  - destruct (Flush_spec (Enc.mk w 1 (Arr4 v0 s1 s2 s3) tmp) [v0])
      as (tmp' & E & Hl);
      [assumption | simpl; lia | reflexivity | reflexivity | assumption |].
    exists (Enc.mk w 1 (Arr4 v0 s1 s2 s3) tmp). eexists.
    split; [reflexivity|]. unfold Enc.Close. rewrite E.
    split; reflexivity.
  - destruct (Flush_spec (Enc.mk w 2 (Arr4 v0 v1 s2 s3) tmp) [v0; v1])
      as (tmp' & E & Hl);
      [assumption | simpl; lia | reflexivity | reflexivity | assumption |].
    exists (Enc.mk w 2 (Arr4 v0 v1 s2 s3) tmp). eexists.
    split; [reflexivity|]. unfold Enc.Close. rewrite E.
    split; reflexivity.
  - destruct (Flush_spec (Enc.mk w 3 (Arr4 v0 v1 v2 s3) tmp) [v0; v1; v2])
      as (tmp' & E & Hl);
      [assumption | simpl; lia | reflexivity | reflexivity | assumption |].
    exists (Enc.mk w 3 (Arr4 v0 v1 v2 s3) tmp). eexists.
    split; [reflexivity|]. unfold Enc.Close. rewrite E.
    split; reflexivity.
Qed.

(** From an empty encoder, putting [vs] and closing appends [wire vs] to the
    buffer, without error or panic. *)
Lemma PutAll_Close_wire (vs : list Z) :
  Forall is_uint32 vs ->
  forall b : Enc.t Buffer,
    Enc.index b = 0 -> length (Enc.temp b) = 17%nat ->
    exists b' b'',
      Enc.PutAll b vs = Done (None, b')
      /\ Enc.Close b' = Done b''
      /\ Enc.w b'' = Enc.w b ++ wire vs.
Proof.
  induction vs as [|x0|x0 x1|x0 x1 x2|v0 v1 v2 v3 l IH] using list_ind4;
    intros Hv b Hi Ht;
    try (apply Close_partial; [assumption | simpl; lia | assumption..]).
  apply Forall_uint32_4 in Hv as [Hg Hl].
  destruct (PutAll_group b v0 v1 v2 v3 l Hg Hi Ht) as (b1 & E & Hi1 & Ht1 & Hw1).
  destruct (IH Hl b1 Hi1 Ht1) as (b' & b'' & E1 & E2 & Hw).
  exists b', b''. rewrite E, E1, E2, Hw, Hw1.
  repeat split. cbn [wire]. now rewrite app_assoc.
Qed.

Lemma encode_wire (vs : list Z) :
  Forall is_uint32 vs -> encode vs = Done (wire vs).
Proof.
  intros Hv. unfold encode.
  destruct (PutAll_Close_wire vs Hv (Enc.New ([] : Buffer)))
    as (b' & b'' & E1 & E2 & Hw); [reflexivity..|].
  rewrite E1, bind_Done. cbv beta iota. rewrite E2, bind_Done, Hw. reflexivity.
Qed.

(** ** Arrays of four *)

Lemma set4_put4 (a : array4) (i v : Z) :
  0 <= i <= 3 -> set4 a i v = Done (put4 a i v).
Proof.
  intros Hi. assert (C : i = 0 \/ i = 1 \/ i = 2 \/ i = 3) by lia.
  destruct C as [->|[->|[->| ->]]]; reflexivity.
Qed.

Lemma get4_at4 (a : array4) (i : Z) :
  0 <= i <= 3 -> get4 a i = Done (at4 a i).
Proof.
  intros Hi. assert (C : i = 0 \/ i = 1 \/ i = 2 \/ i = 3) by lia.
  destruct C as [->|[->|[->| ->]]]; reflexivity.
Qed.

Lemma at4_put4 (a : array4) (i v : Z) :
  0 <= i <= 3 -> at4 (put4 a i v) i = v.
Proof.
  intros Hi. assert (C : i = 0 \/ i = 1 \/ i = 2 \/ i = 3) by lia.
  destruct C as [->|[->|[->| ->]]]; reflexivity.
Qed.

Lemma put4_put4 (a : array4) (i v v' : Z) :
  put4 (put4 a i v) i v' = put4 a i v'.
Proof.
  destruct a as [x0 x1 x2 x3]. unfold put4, set4.
  destruct i as [|[[| |]|[| |]|]|]; reflexivity.
Qed.

(** ** Reading from a source *)

Section ReaderFacts.
Context {R : Type} `{ByteReader R}.

Lemma delivers_app (r r' : R) (l1 l2 : list byte) :
  delivers r (l1 ++ l2) r' <->
  exists r1, delivers r l1 r1 /\ delivers r1 l2 r'.
Proof.
  revert r. induction l1 as [|c l1 IH]; intros r; cbn [app delivers].
  - split; [intros Hd; exists r; auto | intros (r1 & -> & Hd); exact Hd].
  - split.
    + intros (r1 & E & Hd). apply IH in Hd as (r2 & Hd1 & Hd2).
      exists r2. split; [exists r1; auto | exact Hd2].
    + intros (r2 & (r1 & E & Hd1) & Hd2). exists r1. split; [exact E|].
      apply IH. exists r2. auto.
Qed.

(** A slot whose bytes are all there. *)
Lemma slotLoop_ok (bs : list byte) :
  forall (n : nat) (index : Z) (b : Dec.t R) (r' : R),
    delivers (Dec.r b) bs r' -> length bs = n -> 0 <= index <= 3 ->
    Dec.slotLoop n index b
    = Done (None,
            Dec.mk r'
              (put4 (Dec.group b) index
                 (beValue (at4 (Dec.group b) index) bs))
              (Dec.pos b) (Dec.finished b) (Dec.capacity b)).
Proof.
  induction bs as [|c bs IH]; intros n index b r' Hd Hn Hi;
    cbn [length] in Hn; subst n; cbn [delivers] in Hd.
  - subst r'. destruct b as [r [g0 g1 g2 g3] p f cp]. cbn.
    assert (C : index = 0 \/ index = 1 \/ index = 2 \/ index = 3) by lia.
    destruct C as [->|[->|[->| ->]]]; reflexivity.
  - destruct Hd as (r1 & E & Hd). cbn [Dec.slotLoop]. rewrite E.
    cbn [Dec.group]. rewrite get4_at4, bind_Done by assumption.
    rewrite set4_put4, bind_Done by assumption.
    rewrite (IH _ index _ r'); cbn [Dec.r]; [|assumption|reflexivity|assumption].
    cbn [Dec.group Dec.pos Dec.finished Dec.capacity].
    rewrite at4_put4, put4_put4 by assumption. reflexivity.
Qed.

(** A slot cut short: after the bytes [bs], fewer than declared, the read
    fails with [e]. End of data breaks out of the loop with [capacity]
    and [finished] set; another error is returned. *)
Lemma slotLoop_stop (bs : list byte) :
  forall (n : nat) (index : Z) (b : Dec.t R) (r1 r2 : R) (c : byte)
         (e : error),
    delivers (Dec.r b) bs r1 -> ReadByte r1 = ((c, Some e), r2) ->
    (length bs < n)%nat -> 0 <= index <= 3 ->
    Dec.slotLoop n index b
    = let g := put4 (Dec.group b) index
                 (beValue (at4 (Dec.group b) index) bs) in
      if error_eqb e EOF
      then Done (None, Dec.mk r2 g (Dec.pos b) true index)
      else Done (Some e,
                 Dec.mk r2 g (Dec.pos b) (Dec.finished b) (Dec.capacity b)).
Proof.
  induction bs as [|c0 bs IH]; intros n index b r1 r2 c e Hd E Hn Hi;
    cbn [length] in Hn; (destruct n as [|n]; [lia|]); cbn [delivers] in Hd.
  - subst r1. cbn [Dec.slotLoop]. rewrite E. cbn [beValue fold_left].
    assert (Hg : put4 (Dec.group b) index (at4 (Dec.group b) index)
                 = Dec.group b).
    { destruct b as [r [g0 g1 g2 g3] p f cp]. cbn [Dec.group].
      assert (C : index = 0 \/ index = 1 \/ index = 2 \/ index = 3) by lia.
      destruct C as [->|[->|[->| ->]]]; reflexivity. }
    cbv zeta. rewrite Hg. reflexivity.
  - destruct Hd as (r0 & E0 & Hd). cbn [Dec.slotLoop]. rewrite E0.
    cbn [Dec.group]. rewrite get4_at4, bind_Done by assumption.
    rewrite set4_put4, bind_Done by assumption.
    rewrite (IH _ index _ r1 r2 c e); cbn [Dec.r];
      [|assumption|assumption|lia|assumption].
    cbn [Dec.group Dec.pos Dec.finished Dec.capacity]. cbv zeta.
    rewrite at4_put4, put4_put4 by assumption. reflexivity.
Qed.
End ReaderFacts.

(** ** Big-endian values *)

Lemma beValue_step (a : Z) (c : byte) (bs : list byte) :
  beValue a (c :: bs) = beValue ((a * 256 + Z_of_byte c) mod 2 ^ 32) bs.
Proof.
  cbn [beValue fold_left]. unfold wrap32.
  rewrite Z.shiftl_mul_pow2 by lia. rewrite Z.add_mod_idemp_l by lia.
  reflexivity.
Qed.

(** Reading back the minimal bytes of a value gives the value. *)
Lemma beValue_slotBytes (v : Z) : is_uint32 v -> beValue 0 (slotBytes v) = v.
Proof.
  intros Hv. pose proof Hv as [Hv0 Hv1]. unfold slotBytes.
  destruct (minimalWidth_cases v Hv) as [[Hr ->]|[[Hr ->]|[[Hr ->]|[Hr ->]]]];
    [change (Z.to_nat 1) with 1%nat | change (Z.to_nat 2) with 2%nat
    |change (Z.to_nat 3) with 3%nat | change (Z.to_nat 4) with 4%nat];
    cbn [bigEndian];
    rewrite ?beValue_step, ?Z_of_byte_of_Z, ?Z.shiftr_div_pow2 by lia;
    cbn [beValue fold_left];
    change (8 * Z.of_nat 3) with 24; change (8 * Z.of_nat 2) with 16;
    change (8 * Z.of_nat 1) with 8; change (8 * Z.of_nat 0) with 0;
    change (2 ^ 0) with 1; change (2 ^ 8) with 256 in *;
    change (2 ^ 16) with 65536 in *; change (2 ^ 24) with 16777216 in *;
    change (2 ^ 32) with 4294967296 in *.
  - Z.div_mod_to_equations; lia.
  - Z.div_mod_to_equations; lia.
  - Z.div_mod_to_equations; lia.
  - Z.div_mod_to_equations; lia.
Qed.

(** ** Reading a group *)

Section GroupFacts.
Context {R : Type} `{ByteReader R}.

(** Slots whose bytes are all there are stored in turn, and the loop goes
    on with the slots left. *)
Lemma groupLoop_ok (c : byte) (Bs : list (list byte)) :
  forall (n : nat) (i : Z) (b : Dec.t R) (r' : R),
    (length Bs <= n)%nat -> 0 <= i -> i + Z.of_nat (length Bs) <= 4 ->
    Dec.finished b = false -> chunked c i Bs ->
    delivers (Dec.r b) (concat Bs) r' ->
    Dec.groupLoop n i c b
    = Dec.groupLoop (n - length Bs) (i + Z.of_nat (length Bs)) c
        (Dec.mk r' (fill4 (Dec.group b) i (map (beValue 0) Bs))
           (Dec.pos b) false (Dec.capacity b)).
Proof.
  induction Bs as [|B Bs IH]; intros n i b r' Hn Hi Hi' Hf Hch Hd.
  - cbn [concat delivers] in Hd. subst r'. cbn [length map fill4].
    rewrite Nat.sub_0_r, Z.add_0_r. destruct b. cbn in *. now subst.
  - cbn [length] in Hn, Hi'. destruct n as [|n]; [lia|].
    cbn [concat] in Hd. apply delivers_app in Hd as (r1 & Hd1 & Hd2).
    destruct Hch as [HB Hch].
    cbn [Dec.groupLoop]. rewrite set4_put4, bind_Done by lia.
    rewrite (slotLoop_ok B _ i _ r1); cbn [Dec.r];
      [|assumption|lia|lia].
    rewrite bind_Done. cbv beta iota.
    cbn [Dec.group Dec.pos Dec.finished Dec.capacity].
    rewrite at4_put4, put4_put4, Hf by lia.
    rewrite (IH n (i + 1) _ r'); cbn [Dec.r Dec.finished];
      [|lia|lia|lia|reflexivity|assumption|assumption].
    cbn [length map fill4 Nat.sub Dec.group Dec.pos Dec.capacity].
    replace (i + 1 + Z.of_nat (length Bs))
      with (i + Z.of_nat (S (length Bs))) by lia.
    reflexivity.
Qed.

(** A whole group: the four slots are read and the read pointer reset. *)
Lemma getGroup_full (b : Dec.t R) (c : byte) (r1 r' : R)
      (Bs : list (list byte)) :
  Dec.finished b = false -> ReadByte (Dec.r b) = ((c, None), r1) ->
  length Bs = 4%nat -> chunked c 0 Bs -> delivers r1 (concat Bs) r' ->
  Dec.getGroup b
  = Done (None,
          Dec.mk r' (fill4 (Dec.group b) 0 (map (beValue 0) Bs)) 0 false
            (Dec.capacity b)).
Proof.
  intros Hf E Hl Hch Hd. unfold Dec.getGroup. rewrite E.
  rewrite (groupLoop_ok c Bs 4 0 _ r'); cbn [Dec.r Dec.finished];
    [|lia|lia|lia|assumption|assumption|assumption].
  rewrite Hl. cbn [Nat.sub Dec.groupLoop]. rewrite bind_Done. reflexivity.
Qed.

(** A group cut short in slot [k]: after the whole slots [Bs] and the
    bytes [P] of slot [k], fewer than declared, the read fails with [e]. *)
Lemma getGroup_stop (b : Dec.t R) (c x : byte) (r1 r2 r3 : R)
      (Bs : list (list byte)) (P : list byte) (e : error) :
  Dec.finished b = false -> ReadByte (Dec.r b) = ((c, None), r1) ->
  (length Bs <= 3)%nat -> chunked c 0 Bs ->
  delivers r1 (concat Bs ++ P) r2 ->
  Z.of_nat (length P) < Dec.slotSize c (Z.of_nat (length Bs)) ->
  ReadByte r2 = ((x, Some e), r3) ->
  Dec.getGroup b
  = let g := put4 (fill4 (Dec.group b) 0 (map (beValue 0) Bs))
               (Z.of_nat (length Bs)) (beValue 0 P) in
    if error_eqb e EOF
    then Done (None, Dec.mk r3 g 0 true (Z.of_nat (length Bs)))
    else Done (Some e, Dec.mk r3 g (Dec.pos b) false (Dec.capacity b)).
Proof.
  intros Hf E Hl Hch Hd HP E2. unfold Dec.getGroup. rewrite E.
  apply delivers_app in Hd as (r' & Hd1 & Hd2).
  rewrite (groupLoop_ok c Bs 4 0 _ r'); cbn [Dec.r Dec.finished];
    [|lia|lia|lia|assumption|assumption|assumption].
  destruct (4 - length Bs)%nat as [|n] eqn:En; [lia|].
  cbn [Dec.groupLoop Dec.group Dec.pos Dec.finished Dec.capacity Dec.r].
  rewrite Z.add_0_l.
  rewrite set4_put4, bind_Done by lia.
  rewrite (slotLoop_stop P _ _ _ r2 r3 x e); cbn [Dec.r];
    [|assumption|assumption|lia|lia].
  cbn [Dec.group Dec.pos Dec.finished Dec.capacity]. cbv zeta.
  rewrite at4_put4, put4_put4 by lia.
  destruct (error_eqb e EOF); reflexivity.
Qed.
End GroupFacts.

(** ** Giving the values out *)

Section GetFacts.
Context {R : Type} `{ByteReader R}.

(** The exhausted decoder answers end of data for ever. *)
Lemma GetMany_finished (n : nat) (b : Dec.t R) :
  Dec.pos b = Dec.capacity b -> Dec.finished b = true ->
  Dec.GetMany n b = repeat eof n.
Proof.
  intros Hp Hf. induction n as [|n IH]; [reflexivity|].
  cbn [Dec.GetMany repeat]. unfold Dec.GetU32.
  rewrite Hp, Z.eqb_refl, Hf. now rewrite IH.
Qed.

Lemma GetU32_need (b : Dec.t R) :
  Dec.pos b = Dec.capacity b -> Dec.finished b = false ->
  Dec.GetU32 b
  = Dec.getGroup b ≫= (fun '(err, b1) =>
      match err with
      | Some e => Done ((0, Some e), b1)
      | None => Dec.giveOut b1
      end).
Proof.
  intros Hp Hf. unfold Dec.GetU32. now rewrite Hp, Z.eqb_refl, Hf.
Qed.

(** A whole group gives its four values, and the decoder then needs the
    next group. *)
Lemma GetMany_full (b : Dec.t R) (c : byte) (r1 r' : R)
      (Bs : list (list byte)) (n : nat) :
  Dec.pos b = Dec.capacity b -> Dec.capacity b = 4 ->
  Dec.finished b = false -> ReadByte (Dec.r b) = ((c, None), r1) ->
  length Bs = 4%nat -> chunked c 0 Bs -> delivers r1 (concat Bs) r' ->
  Dec.GetMany (4 + n) b
  = map got (map (beValue 0) Bs)
    ++ Dec.GetMany n
         (Dec.mk r' (of_list4 (map (beValue 0) Bs)) 4 false 4).
Proof.
  intros Hp Hc Hf E Hl Hch Hd.
  cbn [Nat.add Dec.GetMany]. rewrite GetU32_need by assumption.
  rewrite (getGroup_full b c r1 r' Bs) by assumption.
  rewrite bind_Done. cbv beta iota. rewrite Hc.
  destruct Bs as [|B0 [|B1 [|B2 [|B3 [|? ?]]]]]; try discriminate.
  destruct b as [r [g0 g1 g2 g3] p f cp]. reflexivity.
Qed.

(** A group cut short by end of data in slot [k >= 1] gives the values of
    the slots before it, then end of data for ever. *)
Lemma GetMany_partial (b : Dec.t R) (c x : byte) (r1 r2 r3 : R)
      (Bs : list (list byte)) (P : list byte) (n : nat) :
  Dec.pos b = Dec.capacity b -> Dec.finished b = false ->
  ReadByte (Dec.r b) = ((c, None), r1) ->
  (1 <= length Bs <= 3)%nat -> chunked c 0 Bs ->
  delivers r1 (concat Bs ++ P) r2 ->
  Z.of_nat (length P) < Dec.slotSize c (Z.of_nat (length Bs)) ->
  ReadByte r2 = ((x, Some EOF), r3) ->
  Dec.GetMany (length Bs + n) b
  = map got (map (beValue 0) Bs) ++ repeat eof n.
Proof.
  intros Hp Hf E Hl Hch Hd HP E2.
  destruct Bs as [|B0 Bs]; [cbn in Hl; lia|].
  cbn [length Nat.add Dec.GetMany]. rewrite GetU32_need by assumption.
  rewrite (getGroup_stop b c x r1 r2 r3 (B0 :: Bs) P EOF);
    [|assumption|assumption|lia|assumption|assumption|assumption|assumption].
  cbv zeta. cbn [error_eqb]. rewrite bind_Done. cbv beta iota.
  destruct b as [r [g0 g1 g2 g3] p f cp].
  destruct Bs as [|B1 [|B2 [|? ?]]]; cbn [length] in Hl; try lia.
  - change (Dec.GetMany (0 + n) ?b') with (Dec.GetMany n b').
    cbn [Dec.group length map app].
    change (Z.of_nat 1) with 1.
    match goal with
    | |- match Dec.giveOut ?b1 with _ => _ end = _ =>
        change (Dec.giveOut b1)
          with (Done ((beValue 0 B0, @None error),
                      Dec.mk r3 (Dec.group b1) 1 true 1))
    end.
    cbv beta iota. rewrite GetMany_finished by reflexivity. reflexivity.
  - cbn [Dec.group length map app Nat.add Dec.GetMany].
    change (Z.of_nat 2) with 2.
    match goal with
    | |- match Dec.giveOut ?b1 with _ => _ end = _ =>
        change (Dec.giveOut b1)
          with (Done ((beValue 0 B0, @None error),
                      Dec.mk r3 (Dec.group b1) 1 true 2))
    end.
    cbv beta iota.
    match goal with
    | |- _ :: match Dec.GetU32 ?b1 with _ => _ end = _ =>
        change (Dec.GetU32 b1)
          with (Done ((beValue 0 B1, @None error),
                      Dec.mk r3 (Dec.group b1) 2 true 2))
    end.
    cbv beta iota. rewrite GetMany_finished by reflexivity. reflexivity.
  - cbn [Dec.group length map app Nat.add Dec.GetMany].
    change (Z.of_nat 3) with 3.
    match goal with
    | |- match Dec.giveOut ?b1 with _ => _ end = _ =>
        change (Dec.giveOut b1)
          with (Done ((beValue 0 B0, @None error),
                      Dec.mk r3 (Dec.group b1) 1 true 3))
    end.
    cbv beta iota.
    match goal with
    | |- _ :: match Dec.GetU32 ?b1 with _ => _ end = _ =>
        change (Dec.GetU32 b1)
          with (Done ((beValue 0 B1, @None error),
                      Dec.mk r3 (Dec.group b1) 2 true 3))
    end.
    cbv beta iota.
    match goal with
    | |- _ :: _ :: match Dec.GetU32 ?b1 with _ => _ end = _ =>
        change (Dec.GetU32 b1)
          with (Done ((beValue 0 B2, @None error),
                      Dec.mk r3 (Dec.group b1) 3 true 3))
    end.
    cbv beta iota. rewrite GetMany_finished by reflexivity. reflexivity.
Qed.
(** A group cut short by end of data in slot 0: [getGroup] leaves
    [capacity = 0] and [pos = 0], and [GetU32] goes on to give out
    [group[0]], the bytes accumulated so far, with [pos = 1]. *)
Lemma GetU32_eof_in_slot_0 (b : Dec.t R) (c x : byte) (r1 r2 r3 : R)
      (P : list byte) :
  Dec.pos b = Dec.capacity b -> Dec.finished b = false ->
  ReadByte (Dec.r b) = ((c, None), r1) -> delivers r1 P r2 ->
  Z.of_nat (length P) < Dec.slotSize c 0 ->
  ReadByte r2 = ((x, Some EOF), r3) ->
  Dec.GetU32 b
  = Done ((beValue 0 P, None),
          Dec.mk r3 (put4 (Dec.group b) 0 (beValue 0 P)) 1 true 0).
Proof.
  intros Hp Hf E Hd HP E2. rewrite GetU32_need by assumption.
  rewrite (getGroup_stop b c x r1 r2 r3 [] P EOF);
    [|assumption|assumption|cbn; lia|exact I|exact Hd|exact HP|assumption].
  cbv zeta. cbn [error_eqb length map fill4]. rewrite bind_Done.
  cbv beta iota. destruct b as [r [g0 g1 g2 g3] p f cp]. reflexivity.
Qed.
End GetFacts.

(** ** Decoding a byte slice *)

Lemma Reader_delivers (bs rest : list byte) :
  delivers (NewReader (bs ++ rest)) bs (NewReader rest).
Proof.
  induction bs as [|c bs IH]; cbn [app delivers]; [reflexivity|].
  exists (NewReader (bs ++ rest)). split; [reflexivity | exact IH].
Qed.

(** At the end of the slice, with no group pending, every call answers end
    of data. *)
Lemma GetMany_end (n : nat) (b : Dec.t Reader) :
  Dec.r b = NewReader [] -> Dec.pos b = Dec.capacity b ->
  Dec.finished b = false ->
  Dec.GetMany n b = repeat eof n.
Proof.
  intros Hr Hp Hf. induction n as [|n IH]; [reflexivity|].
  cbn [Dec.GetMany repeat]. rewrite GetU32_need by assumption.
  unfold Dec.getGroup. rewrite Hr.
  change (ReadByte (NewReader [])) with ((x00, Some EOF), NewReader []).
  cbv beta iota. rewrite bind_Done. cbv beta iota.
  destruct b as [r g p f cp]. cbn in *. subst r. now rewrite IH.
Qed.

(** The sizes that the control byte of a group declares are the widths of
    its values. *)
Lemma chunked_slotBytes (v0 v1 v2 v3 : Z) :
  chunked (controlByte (minimalWidth v0) (minimalWidth v1) (minimalWidth v2)
             (minimalWidth v3)) 0
    [slotBytes v0; slotBytes v1; slotBytes v2; slotBytes v3].
Proof.
  pose proof (slotSize_controlByte _ _ _ _ (minimalWidth_range v0)
                (minimalWidth_range v1) (minimalWidth_range v2)
                (minimalWidth_range v3)) as (E0 & E1 & E2 & E3).
  cbn [chunked]. rewrite !slotBytes_length.
  change (0 + 1) with 1. change (1 + 1) with 2. change (2 + 1) with 3.
  rewrite E0, E1, E2, E3. auto.
Qed.

Lemma chunked_take (c : byte) (i : Z) (Bs : list (list byte)) (k : nat) :
  chunked c i Bs -> chunked c i (take k Bs).
Proof.
  revert i k. induction Bs as [|B Bs IH]; intros i k Hc; destruct k; cbn; auto.
  destruct Hc as [HB Hc]. split; [exact HB | now apply IH].
Qed.

(** Decoding one partial group at the end of the slice. *)
Lemma GetMany_groupWire_partial (vs : list Z) (b : Dec.t Reader) (n : nat) :
  Forall is_uint32 vs -> (1 <= length vs <= 3)%nat ->
  Dec.r b = NewReader (groupWire vs) ->
  Dec.pos b = Dec.capacity b -> Dec.finished b = false ->
  Dec.GetMany (length vs + n) b = map got vs ++ repeat eof n.
Proof.
  intros Hv Hl Hr Hp Hf.
  assert (Hval : map (beValue 0) (map slotBytes vs) = vs).
  { clear Hl Hr. induction Hv as [|v vs Hv0 _ IH]; [reflexivity|].
    cbn [map]. now rewrite beValue_slotBytes, IH. }
  pose proof (chunked_slotBytes (nth 0 vs 0) (nth 1 vs 0) (nth 2 vs 0)
                (nth 3 vs 0)) as Hch.
  apply (chunked_take _ _ _ (length vs)) in Hch.
  assert (Htk : take (length vs)
                  [slotBytes (nth 0 vs 0); slotBytes (nth 1 vs 0);
                   slotBytes (nth 2 vs 0); slotBytes (nth 3 vs 0)]
                = map slotBytes vs).
  { destruct vs as [|v0 [|v1 [|v2 [|? ?]]]]; cbn [length] in Hl; try lia;
      reflexivity. }
  rewrite Htk in Hch.
  pose proof (slotSize_controlByte _ _ _ _ (minimalWidth_range (nth 0 vs 0))
                (minimalWidth_range (nth 1 vs 0))
                (minimalWidth_range (nth 2 vs 0))
                (minimalWidth_range (nth 3 vs 0))) as (E0 & E1 & E2 & E3).
  rewrite <- Hval at 2. rewrite <- (length_map slotBytes vs).
  eapply (GetMany_partial b _ x00 (NewReader (concat (map slotBytes vs)))
            (NewReader []) (NewReader []) (map slotBytes vs) []);
    try assumption.
  - rewrite Hr. reflexivity.
  - rewrite length_map. exact Hl.
  - exact Hch.
  - rewrite app_nil_r.
    rewrite <- (app_nil_r (concat (map slotBytes vs))) at 1.
    apply Reader_delivers.
  - rewrite length_map. cbn [length].
    pose proof (minimalWidth_range (nth 1 vs 0)).
    pose proof (minimalWidth_range (nth 2 vs 0)).
    pose proof (minimalWidth_range (nth 3 vs 0)).
    destruct vs as [|v0 [|v1 [|v2 [|? ?]]]]; cbn [length] in Hl |- *; try lia.
    + change (Z.of_nat 1) with 1. rewrite E1. lia.
    + change (Z.of_nat 2) with 2. rewrite E2. lia.
    + change (Z.of_nat 3) with 3. rewrite E3. lia.
  - reflexivity.
Qed.

(** Decoding a stream: the values in order, then end of data for ever. *)
Lemma GetMany_wire (vs : list Z) :
  Forall is_uint32 vs ->
  forall (b : Dec.t Reader) (n : nat),
    Dec.r b = NewReader (wire vs) ->
    Dec.pos b = Dec.capacity b -> Dec.capacity b = 4 ->
    Dec.finished b = false ->
    Dec.GetMany (length vs + n) b = map got vs ++ repeat eof n.
Proof.
  induction vs as [|x0|x0 x1|x0 x1 x2|v0 v1 v2 v3 l IH] using list_ind4;
    intros Hv b n Hr Hp Hc Hf.
  - apply GetMany_end; assumption.
  - apply GetMany_groupWire_partial; try assumption. cbn; lia.
  - apply GetMany_groupWire_partial; try assumption. cbn; lia.
  - apply GetMany_groupWire_partial; try assumption. cbn; lia.
  - apply Forall_uint32_4 in Hv as [Hg Hl].
    inversion_clear Hg as [|? ? H0 Hg1]. inversion_clear Hg1 as [|? ? H1 Hg2].
    inversion_clear Hg2 as [|? ? H2 Hg3]. inversion_clear Hg3 as [|? ? H3 _].
    change (length (v0 :: v1 :: v2 :: v3 :: l) + n)%nat
      with (4 + (length l + n))%nat.
    cbn [wire] in Hr.
    rewrite (GetMany_full b
               (controlByte (minimalWidth v0) (minimalWidth v1)
                  (minimalWidth v2) (minimalWidth v3))
               (NewReader
               ((slotBytes v0 ++ slotBytes v1 ++ slotBytes v2 ++ slotBytes v3)
                ++ wire l)) (NewReader (wire l))
               [slotBytes v0; slotBytes v1; slotBytes v2; slotBytes v3]);
      try assumption.
    + cbn [map]. rewrite !beValue_slotBytes by assumption.
      rewrite IH; [reflexivity | assumption | reflexivity..].
    + rewrite Hr. unfold groupWire. cbn [nth map concat app].
      rewrite app_nil_r, <- !app_assoc. reflexivity.
    + reflexivity.
    + apply chunked_slotBytes.
    + cbn [concat]. rewrite app_nil_r. apply Reader_delivers.
Qed.

Lemma decode_wire (vs : list Z) (n : nat) :
  Forall is_uint32 vs ->
  decode (length vs + n) (wire vs) = map got vs ++ repeat eof n.
Proof.
  intros Hv. unfold decode. apply GetMany_wire; auto.
Qed.

(** ** Base-128 varints *)

Lemma shiftr7_bound (x : Z) (n : nat) :
  0 <= x < 2 ^ (7 * Z.of_nat (S n)) ->
  0 <= Z.shiftr x 7 < 2 ^ (7 * Z.of_nat n).
Proof.
  intros [H0 H1]. rewrite Z.shiftr_div_pow2 by lia. split.
  - apply Z.div_pos; lia.
  - apply Z.div_lt_upper_bound; [lia|].
    rewrite <- Z.pow_add_r by lia.
    replace (7 + 7 * Z.of_nat n) with (7 * Z.of_nat (S n)) by lia. exact H1.
Qed.

(** The loop of [PutUvarint] commits the uvarint bytes of [x], provided the
    buffer has room for them. *)
Lemma uvarintLoop_spec (room : nat) :
  forall (buf : list byte) (i x : Z),
    (1 <= room)%nat -> 0 <= i ->
    i + Z.of_nat room = Z.of_nat (length buf) ->
    0 <= x < 2 ^ (7 * Z.of_nat room) ->
    exists buf',
      binary.uvarintLoop room buf i x
        = Done (buf', i + Z.of_nat (length (uvarintBytes room x)))
      /\ length buf' = length buf
      /\ committed buf' (i + Z.of_nat (length (uvarintBytes room x)))
         = committed buf i ++ uvarintBytes room x.
Proof.
  induction room as [|room IH]; intros buf i x Hr Hi Hlen Hx; [lia|].
  cbn [binary.uvarintLoop uvarintBytes].
  destruct (Z.leb_spec 128 x) as [Hge|Hlt].
  - destruct (setIndex_committed buf i
                (byte_of_Z (Z.lor (Z_of_byte (byte_of_Z x)) 128)))
      as (buf1 & E1 & Hl1 & Hc1); [lia|].
    rewrite E1, bind_Done.
    pose proof (shiftr7_bound x room Hx) as Hx'.
    assert (Hroom : (1 <= room)%nat).
    { destruct room; [|lia]. change (7 * Z.of_nat 1) with 7 in Hx.
      change (2 ^ 7) with 128 in Hx. lia. }
    destruct (IH buf1 (i + 1) (Z.shiftr x 7)) as (buf2 & E2 & Hl2 & Hc2);
      [lia | lia | lia | exact Hx' |].
    exists buf2. cbn [length]. rewrite Nat2Z.inj_succ.
    replace (i + Z.succ (Z.of_nat (length (uvarintBytes room (Z.shiftr x 7)))))
      with (i + 1 + Z.of_nat (length (uvarintBytes room (Z.shiftr x 7))))
      by lia.
    split; [exact E2|]. split; [lia|].
    rewrite Hc2, Hc1, <- app_assoc. reflexivity.
  - destruct (setIndex_committed buf i (byte_of_Z x))
      as (buf1 & E1 & Hl1 & Hc1); [lia|].
    rewrite E1, bind_Done. exists buf1. cbn [length].
    change (Z.of_nat 1) with 1. auto.
Qed.

(** Room beyond what the value needs does not change the bytes. *)
Lemma uvarintBytes_room (room k : nat) :
  forall x : Z,
    (1 <= room)%nat -> 0 <= x < 2 ^ (7 * Z.of_nat room) ->
    uvarintBytes (room + k) x = uvarintBytes room x.
Proof.
  induction room as [|room IH]; intros x Hr Hx; [lia|].
  cbn [Nat.add uvarintBytes].
  destruct (Z.leb_spec 128 x) as [Hge|Hlt]; [|reflexivity].
  f_equal. apply IH; [|now apply shiftr7_bound].
  destruct room; [|lia]. change (7 * Z.of_nat 1) with 7 in Hx.
  change (2 ^ 7) with 128 in Hx. lia.
Qed.

Lemma uvarintBytes_length (room : nat) (x : Z) :
  (length (uvarintBytes room x) <= room)%nat.
Proof.
  revert x. induction room as [|room IH]; intros x; cbn [uvarintBytes length];
    [lia|].
  destruct (128 <=? x); cbn [length]; [|lia]. specialize (IH (Z.shiftr x 7)). lia.
Qed.

(** [PutUvarint] on a zeroed buffer of [room] bytes, for a value that fits. *)
Lemma PutUvarint_spec (room : nat) (x : Z) :
  (1 <= room)%nat -> 0 <= x < 2 ^ (7 * Z.of_nat room) ->
  exists buf',
    binary.PutUvarint (repeat x00 room) x
      = Done (buf', Z.of_nat (length (uvarintBytes room x)))
    /\ sliceTo buf' (Z.of_nat (length (uvarintBytes room x)))
       = Done (uvarintBytes room x).
Proof.
  intros Hr Hx. unfold binary.PutUvarint. rewrite repeat_length.
  destruct (uvarintLoop_spec room (repeat x00 room) 0 x)
    as (buf' & E & Hl & Hc); [lia | lia | rewrite repeat_length; lia | exact Hx |].
  rewrite Z.add_0_l in E, Hc. exists buf'. split; [exact E|].
  rewrite repeat_length in Hl. pose proof (uvarintBytes_length room x).
  rewrite sliceTo_committed by lia. rewrite Hc. reflexivity.
Qed.

(** * Main results *)

Lemma Forall_uint32_check (vs : list Z) :
  forallb (fun x => (0 <=? x) && (x <? 2 ^ 32)) vs = true ->
  Forall is_uint32 vs.
Proof.
  intros Hc. apply List.Forall_forall. intros x Hx.
  rewrite forallb_forall in Hc. specialize (Hc x Hx).
  apply andb_true_iff in Hc as [H0 H1].
  apply Z.leb_le in H0. apply Z.ltb_lt in H1. split; assumption.
Qed.

(** C1. Round trip: for every finite sequence [vs] of uint32 values (the
    empty one, and the values 0 and 0xFFFFFFFF, included), writing each value
    with [PutU32] and calling [Close] succeeds, and [GetU32] called on the
    bytes written gives the values of [vs] in their order and then reports
    [io.EOF] at each of the [n] further calls, for every [n]. *)
Theorem roundtrip (vs : list Z) (n : nat) :
  Forall is_uint32 vs ->
  exists s : list byte,
    encode vs = Done s
    /\ decode (length vs + n) s = map got vs ++ repeat eof n.
Proof.
  intros Hv. exists (wire vs).
  split; [apply encode_wire | apply decode_wire]; assumption.
Qed.

Lemma roundtrip_witness :
  Forall is_uint32 [0; 4294967295; 1; 300; 70000; 4294967295]
  /\ exists s : list byte,
       encode [0; 4294967295; 1; 300; 70000; 4294967295] = Done s
       /\ decode (6 + 3) s
          = map got [0; 4294967295; 1; 300; 70000; 4294967295]
            ++ repeat eof 3.
Proof.
  split.
  - apply Forall_uint32_check. reflexivity.
  - apply (roundtrip [0; 4294967295; 1; 300; 70000; 4294967295] 3).
    apply Forall_uint32_check. reflexivity.
Defined.

(** C2, at the failing input. An encoder over a buffer receives the value 5
    and is flushed: [Flush] writes the two bytes [00 05] and succeeds, but the
    count of buffered values [index] is still 1, and a second [Flush] writes
    the same two bytes again. [Close] behaves alike. Only [PutU32] resets
    [index], after the flush of a full group. *)
Theorem Flush_keeps_values_pending :
  (Enc.PutU32 (Enc.New ([] : Buffer)) 5 ≫= fun '(_, b1) =>
   Enc.Flush b1 ≫= fun '(out2, b2) =>
   Enc.Flush b2 ≫= fun '(out3, b3) =>
   Done (out2, Enc.index b2, Enc.w b2, out3, Enc.w b3))
  = Done ((2, None), 1, [x00; x05], (2, None), [x00; x05; x00; x05])
  /\ (Enc.PutU32 (Enc.New ([] : Buffer)) 5 ≫= fun '(_, b1) =>
      Enc.Close b1 ≫= fun b2 =>
      Enc.Close b2 ≫= fun b3 =>
      Done (Enc.index b2, Enc.w b2, Enc.w b3))
     = Done (1, [x00; x05], [x00; x05; x00; x05]).
Proof. split; vm_compute; reflexivity. Qed.

(** C3, as stated, fails: the group [1, 300, 70000, 0] is not encoded as
    [10 01 01 2C 01 11 70 00], and these bytes do not decode to
    1, 300, 70000, 0 and then end of data. *)
Lemma scenario_not_0x10 :
  ~ (encode [1; 300; 70000; 0]
     = Done [x10; x01; x01; x2c; x01; x11; x70; x00]
     /\ decode 5 [x10; x01; x01; x2c; x01; x11; x70; x00]
        = [got 1; got 300; got 70000; got 0; eof]).
Proof. intros [E _]. vm_compute in E. discriminate E. Qed.

(** C3, amended. Encoding the four values [1, 300, 70000, 0] produces the
    control byte 0x18, that is (0<<6)|(1<<4)|(2<<2)|(0<<0), and the wire bytes
    [18 01 01 2C 01 11 70 00]; decoding these bytes gives 1, 300, 70000, 0
    and then end of data. *)
Theorem scenario_0x18 :
  encode [1; 300; 70000; 0] = Done [x18; x01; x01; x2c; x01; x11; x70; x00]
  /\ Z_of_byte x18
     = Z.lor (Z.lor (Z.lor (Z.shiftl 0 6) (Z.shiftl 1 4)) (Z.shiftl 2 2))
         (Z.shiftl 0 0)
  /\ decode 6 [x18; x01; x01; x2c; x01; x11; x70; x00]
     = [got 1; got 300; got 70000; got 0; eof; eof].
Proof. repeat split; vm_compute; reflexivity. Qed.

(** C4, at the failing inputs. When end of data comes while the decoder
    reads slot 0 of a group, [GetU32] does not report end of data: on the
    source [40 01] (slot 0 declared two bytes long, one present) it returns
    the partial accumulation 1 as a value, then the three other elements of
    [group], and the fifth call panics on [group[4]]; on the source [00] (a
    control byte alone) it returns four zeros and then panics. *)
Theorem eof_in_slot_0 :
  decode 5 [x40; x01]
  = [got 1; got 0; got 0; got 0; Panic IndexOutOfRange]
  /\ decode 5 [x00]
     = [got 0; got 0; got 0; got 0; Panic IndexOutOfRange].
Proof. split; vm_compute; reflexivity. Qed.

(** The two-bit field of slot [i] in a control byte, read at the bit
    positions [7 - 2i] and [6 - 2i]. *)
Lemma controlByte_fields (w0 w1 w2 w3 i : Z) :
  1 <= w0 <= 4 -> 1 <= w1 <= 4 -> 1 <= w2 <= 4 -> 1 <= w3 <= 4 ->
  0 <= i <= 3 ->
  let c := controlByte w0 w1 w2 w3 in
  let field := Z.land (Z.shiftr (Z_of_byte c) (6 - 2 * i)) 3 in
  field = nth (Z.to_nat i) [w0; w1; w2; w3] 0 - 1
  /\ Z.testbit (Z_of_byte c) (7 - 2 * i) = Z.testbit field 1
  /\ Z.testbit (Z_of_byte c) (6 - 2 * i) = Z.testbit field 0
  /\ Dec.slotSize c i = field + 1.
Proof.
  intros H0 H1 H2 H3 Hi.
  assert (C0 : w0 = 1 \/ w0 = 2 \/ w0 = 3 \/ w0 = 4) by lia.
  assert (C1 : w1 = 1 \/ w1 = 2 \/ w1 = 3 \/ w1 = 4) by lia.
  assert (C2 : w2 = 1 \/ w2 = 2 \/ w2 = 3 \/ w2 = 4) by lia.
  assert (C3 : w3 = 1 \/ w3 = 2 \/ w3 = 3 \/ w3 = 4) by lia.
  assert (Ci : i = 0 \/ i = 1 \/ i = 2 \/ i = 3) by lia.
  clear H0 H1 H2 H3 Hi.
  destruct Ci as [->|[->|[->| ->]]];
    destruct C0 as [->|[->|[->| ->]]]; destruct C1 as [->|[->|[->| ->]]];
    destruct C2 as [->|[->|[->| ->]]]; destruct C3 as [->|[->|[->| ->]]];
    vm_compute; repeat split; reflexivity.
Qed.

(** The first of the minimal bytes of a non-zero value is not zero. *)
Lemma slotBytes_head (x : Z) :
  is_uint32 x -> x <> 0 ->
  exists (c : byte) (rest : list byte), slotBytes x = c :: rest /\ c <> x00.
Proof.
  intros Hx Hnz. pose proof Hx as [Hx0 Hx1]. unfold slotBytes.
  assert (Hne : forall z, 1 <= z < 256 -> byte_of_Z z <> x00).
  { intros z Hz E. apply (f_equal Z_of_byte) in E.
    rewrite Z_of_byte_of_Z, Z.mod_small in E by lia.
    change (Z_of_byte x00) with 0 in E. lia. }
  destruct (minimalWidth_cases x Hx) as [[Hr ->]|[[Hr ->]|[[Hr ->]|[Hr ->]]]];
    [change (Z.to_nat 1) with 1%nat | change (Z.to_nat 2) with 2%nat
    |change (Z.to_nat 3) with 3%nat | change (Z.to_nat 4) with 4%nat];
    cbn [bigEndian]; eexists _, _; (split; [reflexivity|]); apply Hne;
    rewrite Z.shiftr_div_pow2 by lia;
    change (8 * Z.of_nat 3) with 24; change (8 * Z.of_nat 2) with 16;
    change (8 * Z.of_nat 1) with 8; change (8 * Z.of_nat 0) with 0;
    change (2 ^ 0) with 1; change (2 ^ 8) with 256 in *;
    change (2 ^ 16) with 65536 in *; change (2 ^ 24) with 16777216 in *;
    change (2 ^ 32) with 4294967296 in *.
  - Z.div_mod_to_equations; lia.
  - Z.div_mod_to_equations; lia.
  - Z.div_mod_to_equations; lia.
  - Z.div_mod_to_equations; lia.
Qed.

(** C7. For every uint32 value [x], the encoder's loop over the shifts
    writes [size] bytes [bs] for [x], where [bs] is the big-endian
    representation of [x] with no leading zero byte, except that [x = 0] is
    written as the single byte 0: [size] is at least 1 and at most 4, and
    it is the least number of bytes that hold [x]. Consequently the group
    [0, 0, 0, 0] encodes to 5 bytes and [0xFFFFFFFF, 0, 0, 0] to 8 bytes. *)
Theorem minimal_byte_width (x : Z) (tmp : list byte) (L : Z) :
  is_uint32 x -> 0 <= L -> L + 4 <= Z.of_nat (length tmp) ->
  (exists (size : Z) (tmp' bs : list byte),
     foldM (Enc.putByte x) (0, tmp, L) Enc.shifts = Done (size, tmp', L + size)
     /\ committed tmp' (L + size) = committed tmp L ++ bs
     /\ Z.of_nat (length bs) = size
     /\ 1 <= size <= 4
     /\ beValue 0 bs = x
     /\ (x = 0 -> bs = [x00])
     /\ (x <> 0 -> exists c rest, bs = c :: rest /\ c <> x00)
     /\ x < 256 ^ size
     /\ (1 < size -> 256 ^ (size - 1) <= x))
  /\ encode [0; 0; 0; 0] = Done [x00; x00; x00; x00; x00]
  /\ encode [4294967295; 0; 0; 0]
     = Done [xc0; xff; xff; xff; xff; x00; x00; x00].
Proof.
  intros Hx HL Hroom. split; [|split; vm_compute; reflexivity].
  destruct (putBytes_spec x tmp L Hx HL Hroom) as (tmp' & E & Hlen & Hc).
  exists (minimalWidth x), tmp', (slotBytes x).
  split; [exact E|]. split; [exact Hc|]. split; [apply slotBytes_length|].
  split; [apply minimalWidth_range|]. split; [now apply beValue_slotBytes|].
  split; [intros ->; reflexivity|]. split; [now apply slotBytes_head|].
  destruct Hx as [Hx0 Hx1].
  destruct (minimalWidth_cases x (conj Hx0 Hx1))
    as [[Hr ->]|[[Hr ->]|[[Hr ->]|[Hr ->]]]];
    change (256 ^ 1) with (2 ^ 8); change (256 ^ 2) with (2 ^ 16);
    change (256 ^ 3) with (2 ^ 24); change (256 ^ 4) with (2 ^ 32);
    change (256 ^ (2 - 1)) with (2 ^ 8); change (256 ^ (3 - 1)) with (2 ^ 16);
    change (256 ^ (4 - 1)) with (2 ^ 24); lia.
Qed.

Lemma minimal_byte_width_witness :
  is_uint32 70000 /\ 0 <= 1 /\ 1 + 4 <= Z.of_nat (length (repeat x00 17))
  /\ (exists (size : Z) (tmp' bs : list byte),
        foldM (Enc.putByte 70000) (0, repeat x00 17, 1) Enc.shifts
        = Done (size, tmp', 1 + size)
        /\ committed tmp' (1 + size) = committed (repeat x00 17) 1 ++ bs
        /\ Z.of_nat (length bs) = size
        /\ 1 <= size <= 4
        /\ beValue 0 bs = 70000
        /\ (70000 = 0 -> bs = [x00])
        /\ (70000 <> 0 -> exists c rest, bs = c :: rest /\ c <> x00)
        /\ 70000 < 256 ^ size
        /\ (1 < size -> 256 ^ (size - 1) <= 70000))
  /\ encode [0; 0; 0; 0] = Done [x00; x00; x00; x00; x00]
  /\ encode [4294967295; 0; 0; 0]
     = Done [xc0; xff; xff; xff; xff; x00; x00; x00].
Proof.
  split; [|split; [|split]].
  - unfold is_uint32. lia.
  - lia.
  - cbn [repeat length]. lia.
  - apply (minimal_byte_width 70000 (repeat x00 17) 1).
    + unfold is_uint32. lia.
    + lia.
    + cbn [repeat length]. lia.
Defined.

(** C9. For every full group of four uint32 values, [Flush] does not panic:
    every index into the 17-byte [temp] is in bounds. The bytes [p] it
    assembles and writes number 1 plus the sum of the four minimal widths,
    which lies between 5 and 17, and [Flush] returns that number. *)
Theorem flush_within_temp {W : Type} `{Writer W} (b : Enc.t W) :
  Enc.index b = 4 -> Forall is_uint32 (to_list4 (Enc.store b)) ->
  length (Enc.temp b) = 17%nat ->
  exists (p tmp' : list byte),
    Enc.Flush b
    = Done ((Z.of_nat (length p), snd (fst (Write (Enc.w b) p))),
            Enc.mk (snd (Write (Enc.w b) p)) 4 (Enc.store b) tmp')
    /\ Z.of_nat (length p)
       = 1 + minimalWidth (a0 (Enc.store b)) + minimalWidth (a1 (Enc.store b))
         + minimalWidth (a2 (Enc.store b)) + minimalWidth (a3 (Enc.store b))
    /\ 5 <= Z.of_nat (length p) <= 17
    /\ length tmp' = 17%nat.
Proof.
  intros Hi Hv Ht.
  destruct (Flush_spec b (to_list4 (Enc.store b))) as (tmp' & E & Hl);
    [assumption | cbn; lia | exact Hi | reflexivity | assumption |].
  exists (groupWire (to_list4 (Enc.store b))), tmp'.
  rewrite E, Hi. destruct b as [w i [s0 s1 s2 s3] tmp].
  cbn [Enc.store Enc.w to_list4 of_list4 nth a0 a1 a2 a3].
  split; [reflexivity|].
  rewrite groupWire_length. unfold sumWidths, to_list4.
  cbn [fold_right a0 a1 a2 a3].
  pose proof (minimalWidth_range s0). pose proof (minimalWidth_range s1).
  pose proof (minimalWidth_range s2). pose proof (minimalWidth_range s3).
  split; [lia|]. split; [lia|]. exact Hl.
Qed.

Lemma flush_within_temp_witness :
  Enc.index fullEncoder = 4
  /\ Forall is_uint32 (to_list4 (Enc.store fullEncoder))
  /\ length (Enc.temp fullEncoder) = 17%nat
  /\ exists (p tmp' : list byte),
       Enc.Flush fullEncoder
       = Done ((Z.of_nat (length p), snd (fst (Write (Enc.w fullEncoder) p))),
               Enc.mk (snd (Write (Enc.w fullEncoder) p)) 4 (Enc.store fullEncoder) tmp')
       /\ Z.of_nat (length p)
          = 1 + minimalWidth (a0 (Enc.store fullEncoder)) + minimalWidth (a1 (Enc.store fullEncoder))
            + minimalWidth (a2 (Enc.store fullEncoder)) + minimalWidth (a3 (Enc.store fullEncoder))
       /\ 5 <= Z.of_nat (length p) <= 17
       /\ length tmp' = 17%nat.
Proof.
  split; [|split; [|split]].
  - reflexivity.
  - apply Forall_uint32_check. reflexivity.
  - reflexivity.
  - apply (flush_within_temp fullEncoder).
    + reflexivity.
    + apply Forall_uint32_check. reflexivity.
    + reflexivity.
Defined.

(** C10. For every uint32 value [x], [Base128Encoder.PutU32(x)] hands the
    writer the same bytes as [Base128Encoder.PutU64(uint64(x))], and so
    returns the same result: at most five bytes, assembled without a panic
    in the five-byte buffer. *)
Theorem PutU32_as_PutU64 {W : Type} `{Writer W} (b : Base128Encoder.t W)
        (x : Z) :
  is_uint32 x ->
  Base128Encoder.PutU32 b x = Base128Encoder.PutU64 b (wrap64 x)
  /\ exists p : list byte,
       (1 <= length p <= 5)%nat
       /\ Base128Encoder.PutU32 b x
          = Done (fst (Write (Base128Encoder.w b) p),
                  Base128Encoder.mk (snd (Write (Base128Encoder.w b) p))).
Proof.
  intros [Hx0 Hx1].
  assert (Hw : wrap64 x = x) by (unfold wrap64; apply Z.mod_small; lia).
  assert (H35 : 0 <= x < 2 ^ (7 * Z.of_nat 5))
    by (change (2 ^ (7 * Z.of_nat 5)) with (2 ^ 32 * 8); lia).
  assert (H70 : 0 <= x < 2 ^ (7 * Z.of_nat 10))
    by (change (2 ^ (7 * Z.of_nat 10)) with (2 ^ 32 * 2 ^ 38); lia).
  destruct (PutUvarint_spec 5 x ltac:(lia) H35) as (buf5 & E5 & S5).
  destruct (PutUvarint_spec 10 x ltac:(lia) H70) as (buf10 & E10 & S10).
  change 10%nat with (5 + 5)%nat in E10, S10.
  rewrite (uvarintBytes_room 5 5 x ltac:(lia) H35) in E10, S10.
  unfold Base128Encoder.PutU32, Base128Encoder.PutU64,
    binary.MaxVarintLen32, binary.MaxVarintLen64.
  change 10%nat with (5 + 5)%nat.
  rewrite Hw, E5, E10, !bind_Done. cbv beta iota.
  rewrite S5, S10, !bind_Done. split; [reflexivity|].
  exists (uvarintBytes 5 x). split.
  - pose proof (uvarintBytes_length 5 x). split; [|lia].
    cbn [uvarintBytes]. destruct (128 <=? x); cbn [length]; lia.
  - destruct (Write (Base128Encoder.w b) (uvarintBytes 5 x)). reflexivity.
Qed.

Lemma PutU32_as_PutU64_witness :
  is_uint32 4294967295
  /\ Base128Encoder.PutU32 (Base128Encoder.mk ([] : Buffer)) 4294967295
     = Base128Encoder.PutU64 (Base128Encoder.mk ([] : Buffer))
         (wrap64 4294967295)
  /\ exists p : list byte,
       (1 <= length p <= 5)%nat
       /\ Base128Encoder.PutU32 (Base128Encoder.mk ([] : Buffer)) 4294967295
          = Done (fst (Write ([] : Buffer) p),
                  Base128Encoder.mk (snd (Write ([] : Buffer) p))).
Proof.
  split.
  - unfold is_uint32. lia.
  - apply (PutU32_as_PutU64 (Base128Encoder.mk ([] : Buffer)) 4294967295).
    unfold is_uint32. lia.
Defined.

(** C8. The decoder needs a group (no value is pending and it is not
    finished). If the read of the control byte fails with an error [e],
    [GetU32] returns [e] and no value: for [e = io.EOF] this is the normal
    end of the stream, for another error it is that error. If the read of a
    slot byte (after the whole slots [Bs] and the bytes [P] of the next slot,
    fewer than declared) fails with an error [e] other than [io.EOF],
    [GetU32] returns [e], which is not [io.EOF]. *)
Theorem read_errors_propagate {R : Type} `{ByteReader R} (b : Dec.t R) :
  Dec.pos b = Dec.capacity b -> Dec.finished b = false ->
  (forall (x : byte) (e : error) (r1 : R),
     ReadByte (Dec.r b) = ((x, Some e), r1) ->
     Dec.GetU32 b
     = Done ((0, Some e),
             Dec.mk r1 (Dec.group b) (Dec.pos b) false (Dec.capacity b)))
  /\ (forall (c x : byte) (e : error) (r1 r2 r3 : R)
             (Bs : list (list byte)) (P : list byte),
        ReadByte (Dec.r b) = ((c, None), r1) ->
        (length Bs <= 3)%nat -> chunked c 0 Bs ->
        delivers r1 (concat Bs ++ P) r2 ->
        Z.of_nat (length P) < Dec.slotSize c (Z.of_nat (length Bs)) ->
        ReadByte r2 = ((x, Some e), r3) ->
        e <> EOF ->
        exists b' : Dec.t R,
          Dec.GetU32 b = Done ((0, Some e), b') /\ Dec.r b' = r3).
Proof.
  intros Hp Hf. split.
  - intros x e r1 E. rewrite GetU32_need by assumption.
    unfold Dec.getGroup. rewrite E, Hf. reflexivity.
  - intros c x e r1 r2 r3 Bs P E Hl Hch Hd HP E2 Hne.
    rewrite GetU32_need by assumption.
    rewrite (getGroup_stop b c x r1 r2 r3 Bs P e) by assumption.
    cbv zeta. destruct e as [|code]; [congruence|]. cbn [error_eqb].
    rewrite bind_Done. cbv beta iota. eexists. split; reflexivity.
Qed.

Lemma read_errors_propagate_witness :
  (Dec.pos (Dec.New emptySource) = Dec.capacity (Dec.New emptySource)
   /\ Dec.finished (Dec.New emptySource) = false
   /\ ReadByte emptySource = ((x00, Some EOF), emptySource)
   /\ Dec.GetU32 (Dec.New emptySource)
      = Done ((0, Some EOF), Dec.mk emptySource zero4 4 false 4))
  /\ (ReadByte brokenSource = ((x00, Some (IOError 3)), emptySource)
      /\ Dec.GetU32 (Dec.New brokenSource)
         = Done ((0, Some (IOError 3)), Dec.mk emptySource zero4 4 false 4))
  /\ (ReadByte tornSource
      = ((x40, None), NewScript [(x01, None); (x00, Some (IOError 7))])
      /\ chunked x40 0 []
      /\ delivers (NewScript [(x01, None); (x00, Some (IOError 7))])
           (concat [] ++ [x01]) (NewScript [(x00, Some (IOError 7))])
      /\ Z.of_nat (length [x01]) < Dec.slotSize x40 (Z.of_nat 0)
      /\ ReadByte (NewScript [(x00, Some (IOError 7))])
         = ((x00, Some (IOError 7)), emptySource)
      /\ IOError 7 <> EOF
      /\ exists b' : Dec.t Script,
           Dec.GetU32 (Dec.New tornSource) = Done ((0, Some (IOError 7)), b')
           /\ Dec.r b' = emptySource).
Proof.
  assert (Hd : delivers (NewScript [(x01, None); (x00, Some (IOError 7))])
                 (concat [] ++ [x01]) (NewScript [(x00, Some (IOError 7))])).
  { cbn [concat app delivers]. eexists. split; reflexivity. }
  split; [|split].
  - split; [reflexivity|]. split; [reflexivity|]. split; [reflexivity|].
    apply (proj1 (read_errors_propagate (Dec.New emptySource) eq_refl eq_refl)
             x00 EOF emptySource eq_refl).
  - split; [reflexivity|].
    apply (proj1 (read_errors_propagate (Dec.New brokenSource) eq_refl eq_refl)
             x00 (IOError 3) emptySource eq_refl).
  - split; [reflexivity|]. split; [exact I|]. split; [exact Hd|].
    split; [reflexivity|]. split; [reflexivity|]. split; [discriminate|].
    apply (proj2 (read_errors_propagate (Dec.New tornSource) eq_refl eq_refl)
             x40 x00 (IOError 7)
             (NewScript [(x01, None); (x00, Some (IOError 7))])
             (NewScript [(x00, Some (IOError 7))]) emptySource [] [x01]).
    + reflexivity.
    + cbn [length]. lia.
    + exact I.
    + exact Hd.
    + reflexivity.
    + reflexivity.
    + discriminate.
Defined.

(** * Further properties *)

(** ** Streams of groups *)

Lemma wire_app (k : nat) :
  forall vs1 vs2 : list Z,
    length vs1 = (4 * k)%nat -> wire (vs1 ++ vs2) = wire vs1 ++ wire vs2.
Proof.
  induction k as [|k IH]; intros vs1 vs2 Hl.
  - destruct vs1; [reflexivity | discriminate].
  - destruct vs1 as [|v0 [|v1 [|v2 [|v3 l]]]]; cbn [length] in Hl; try lia.
    cbn [app wire]. rewrite (IH l vs2) by lia. now rewrite app_assoc.
Qed.

Lemma wire_length (vs : list Z) :
  Z.of_nat (length (wire vs))
  = (Z.of_nat (length vs) + 3) / 4 + sumWidths vs.
Proof.
  induction vs as [|x0|x0 x1|x0 x1 x2|v0 v1 v2 v3 l IH] using list_ind4;
    try (cbn [wire]; rewrite groupWire_length; reflexivity).
  - reflexivity.
  - cbn [wire]. rewrite length_app, Nat2Z.inj_add, groupWire_length, IH.
    cbn [length sumWidths fold_right]. fold (sumWidths l).
    replace (Z.of_nat (S (S (S (S (length l))))) + 3)
      with (Z.of_nat (length l) + 3 + 1 * 4) by lia.
    rewrite Z.div_add by lia. lia.
Qed.

(** X1. Encodings concatenate at group boundaries: when [vs1] holds a
    multiple of four values, the bytes for [vs1 ++ vs2] are the bytes for
    [vs1] followed by the bytes for [vs2]; what an earlier group left in the
    encoder does not show in a later one. *)
Theorem encode_app (vs1 vs2 : list Z) (k : nat) :
  Forall is_uint32 vs1 -> Forall is_uint32 vs2 ->
  length vs1 = (4 * k)%nat ->
  exists s1 s2 : list byte,
    encode vs1 = Done s1 /\ encode vs2 = Done s2
    /\ encode (vs1 ++ vs2) = Done (s1 ++ s2).
Proof.
  intros H1 H2 Hl. exists (wire vs1), (wire vs2).
  rewrite !encode_wire by (try apply Forall_app; auto).
  rewrite (wire_app k) by assumption. auto.
Qed.

Lemma encode_app_witness :
  Forall is_uint32 [1; 300; 70000; 4294967295]
  /\ Forall is_uint32 [5; 6]
  /\ length [1; 300; 70000; 4294967295]%Z = (4 * 1)%nat
  /\ exists s1 s2 : list byte,
       encode [1; 300; 70000; 4294967295] = Done s1
       /\ encode [5; 6] = Done s2
       /\ encode ([1; 300; 70000; 4294967295] ++ [5; 6]) = Done (s1 ++ s2).
Proof.
  split; [|split; [|split]].
  - apply Forall_uint32_check. reflexivity.
  - apply Forall_uint32_check. reflexivity.
  - reflexivity.
  - apply (encode_app [1; 300; 70000; 4294967295] [5; 6] 1).
    + apply Forall_uint32_check. reflexivity.
    + apply Forall_uint32_check. reflexivity.
    + reflexivity.
Defined.

(** X2. Size of the output: [n] values take one control byte per group of
    four (the last group may be partial) and the sum of their minimal
    widths, hence between [n + ceil(n/4)] and [4n + ceil(n/4)] bytes. *)
Theorem encoded_length (vs : list Z) :
  Forall is_uint32 vs ->
  exists s : list byte,
    encode vs = Done s
    /\ Z.of_nat (length s) = (Z.of_nat (length vs) + 3) / 4 + sumWidths vs
    /\ Z.of_nat (length vs) + (Z.of_nat (length vs) + 3) / 4
       <= Z.of_nat (length s)
       <= 4 * Z.of_nat (length vs) + (Z.of_nat (length vs) + 3) / 4.
Proof.
  intros Hv. exists (wire vs). rewrite encode_wire by assumption.
  split; [reflexivity|]. rewrite wire_length.
  pose proof (sumWidths_range vs). split; [reflexivity | lia].
Qed.

Lemma encoded_length_witness :
  Forall is_uint32 [1; 300; 70000; 4294967295; 7]
  /\ exists s : list byte,
       encode [1; 300; 70000; 4294967295; 7] = Done s
       /\ Z.of_nat (length s)
          = (Z.of_nat (length [1; 300; 70000; 4294967295; 7]) + 3) / 4
            + sumWidths [1; 300; 70000; 4294967295; 7]
       /\ Z.of_nat (length [1; 300; 70000; 4294967295; 7])
          + (Z.of_nat (length [1; 300; 70000; 4294967295; 7]) + 3) / 4
          <= Z.of_nat (length s)
          <= 4 * Z.of_nat (length [1; 300; 70000; 4294967295; 7])
             + (Z.of_nat (length [1; 300; 70000; 4294967295; 7]) + 3) / 4.
Proof.
  split.
  - apply Forall_uint32_check. reflexivity.
  - apply (encoded_length [1; 300; 70000; 4294967295; 7]).
    apply Forall_uint32_check. reflexivity.
Defined.

(** ** Putting values *)

Lemma PutAll_groups (k : nat) :
  forall (full rest : list Z) (b : Enc.t Buffer),
    Forall is_uint32 full -> length full = (4 * k)%nat ->
    Enc.index b = 0 -> length (Enc.temp b) = 17%nat ->
    exists b',
      Enc.PutAll b (full ++ rest) = Enc.PutAll b' rest
      /\ Enc.index b' = 0 /\ length (Enc.temp b') = 17%nat
      /\ Enc.w b' = Enc.w b ++ wire full.
Proof.
  induction k as [|k IH]; intros full rest b Hv Hl Hi Ht.
  - destruct full; [|discriminate]. exists b. cbn [app wire].
    rewrite app_nil_r. auto.
  - destruct full as [|v0 [|v1 [|v2 [|v3 l]]]]; cbn [length] in Hl; try lia.
    apply Forall_uint32_4 in Hv as [Hg Hvl].
    destruct (PutAll_group b v0 v1 v2 v3 (l ++ rest) Hg Hi Ht)
      as (b1 & E1 & Hi1 & Ht1 & Hw1).
    destruct (IH l rest b1 Hvl ltac:(lia) Hi1 Ht1) as (b2 & E2 & Hi2 & Ht2 & Hw2).
    exists b2. cbn [app wire]. rewrite E1, E2, Hw2, Hw1, app_assoc. auto.
Qed.

(** X3. Streaming: after the values [full ++ rest] are put, where [full]
    holds a multiple of four values and [rest] at most three, the buffer has
    received the groups of [full] and nothing of [rest], whose values are
    pending in the first slots of [store] with [index] counting them; with
    nothing pending, [Close] changes nothing. *)
Theorem PutAll_pending (buf0 : Buffer) (full rest : list Z) (k : nat) :
  Forall is_uint32 full -> length full = (4 * k)%nat ->
  (length rest <= 3)%nat ->
  exists b : Enc.t Buffer,
    Enc.PutAll (Enc.New buf0) (full ++ rest) = Done (None, b)
    /\ Enc.w b = buf0 ++ wire full
    /\ Enc.index b = Z.of_nat (length rest)
    /\ take (length rest) (to_list4 (Enc.store b)) = rest
    /\ (rest = [] -> Enc.Close b = Done b).
Proof.
  intros Hv Hl Hr.
  destruct (PutAll_groups k full rest (Enc.New buf0) Hv Hl eq_refl eq_refl)
    as (b1 & E & Hi & Ht & Hw).
  rewrite E. cbn [Enc.New Enc.w] in Hw. rewrite <- Hw.
  destruct b1 as [w i [s0 s1 s2 s3] tmp]. cbn [Enc.index Enc.w] in *. subst i.
  destruct rest as [|x0 [|x1 [|x2 [|? ?]]]]; cbn [length] in Hr; try lia.
  - exists (Enc.mk w 0 (Arr4 s0 s1 s2 s3) tmp). repeat split; reflexivity.
  - exists (Enc.mk w 1 (Arr4 x0 s1 s2 s3) tmp).
    repeat split; try reflexivity. discriminate.
  - exists (Enc.mk w 2 (Arr4 x0 x1 s2 s3) tmp).
    repeat split; try reflexivity. discriminate.
  - exists (Enc.mk w 3 (Arr4 x0 x1 x2 s3) tmp).
    repeat split; try reflexivity. discriminate.
Qed.

Lemma PutAll_pending_witness :
  Forall is_uint32 [1; 300; 70000; 4294967295]
  /\ length [1; 300; 70000; 4294967295]%Z = (4 * 1)%nat
  /\ (length [5; 6]%Z <= 3)%nat
  /\ exists b : Enc.t Buffer,
       Enc.PutAll (Enc.New [x2a]) ([1; 300; 70000; 4294967295] ++ [5; 6])
       = Done (None, b)
       /\ Enc.w b = [x2a] ++ wire [1; 300; 70000; 4294967295]
       /\ Enc.index b = Z.of_nat (length [5; 6]%Z)
       /\ take (length [5; 6]%Z) (to_list4 (Enc.store b)) = [5; 6]
       /\ ([5; 6] = [] -> Enc.Close b = Done b).
Proof.
  split; [|split; [|split]].
  - apply Forall_uint32_check. reflexivity.
  - reflexivity.
  - cbn [length]. lia.
  - apply (PutAll_pending [x2a] [1; 300; 70000; 4294967295] [5; 6] 1).
    + apply Forall_uint32_check. reflexivity.
    + reflexivity.
    + cbn [length]. lia.
Defined.

Section PutFacts.
Context {W : Type} `{Writer W}.

Lemma PutU32_completes (b : Enc.t W) (x : Z) :
  Enc.index b = 3 ->
  Forall is_uint32 [a0 (Enc.store b); a1 (Enc.store b); a2 (Enc.store b); x] ->
  length (Enc.temp b) = 17%nat ->
  let p := groupWire [a0 (Enc.store b); a1 (Enc.store b); a2 (Enc.store b); x] in
  let out := Write (Enc.w b) p in
  exists tmp' : list byte,
    length tmp' = 17%nat
    /\ Enc.PutU32 b x
       = Done ((Z.of_nat (length p), snd (fst out)),
               Enc.mk (snd out)
                 (match snd (fst out) with Some _ => 4 | None => 0 end)
                 (Arr4 (a0 (Enc.store b)) (a1 (Enc.store b))
                    (a2 (Enc.store b)) x) tmp').
Proof.
  intros Hi Hv Ht. destruct b as [w i [s0 s1 s2 s3] tmp].
  cbn [Enc.index Enc.store Enc.temp Enc.w a0 a1 a2] in *. subst i.
  destruct (Flush_spec (Enc.mk w 4 (Arr4 s0 s1 s2 x) tmp) [s0; s1; s2; x])
    as (tmp' & E & Hl);
    [assumption | cbn; lia | reflexivity | reflexivity | assumption |].
  cbn [Enc.index Enc.temp Enc.w Enc.store] in E. cbv zeta.
  exists tmp'. split; [exact Hl|].
  change (Enc.PutU32 (Enc.mk w 3 (Arr4 s0 s1 s2 s3) tmp) x)
    with (Enc.Flush (Enc.mk w 4 (Arr4 s0 s1 s2 x) tmp) ≫=
           (fun '((n, err), b2) =>
              match err with
              | Some e => Done ((n, Some e), b2)
              | None => Done ((0 + n, @None error),
                              Enc.mk (Enc.w b2) 0 (Enc.store b2) (Enc.temp b2))
              end)).
  rewrite E, bind_Done. cbv beta iota.
  destruct (Write w (groupWire [s0; s1; s2; x])) as [[n [e|]] w'];
    reflexivity.
Qed.

(** X4. What [PutU32] returns. With fewer than three values pending it
    stores the value, returns (0, nil) and does not touch the writer. With
    three pending it hands the writer the group of the four values and
    returns the number of bytes of the group, 1 plus the four minimal
    widths, with the writer's error; [index] is then 0 if the write
    succeeded and 4 if it failed. *)
Theorem PutU32_result (b : Enc.t W) (x : Z) :
  0 <= Enc.index b <= 3 ->
  Forall is_uint32 [a0 (Enc.store b); a1 (Enc.store b); a2 (Enc.store b); x] ->
  length (Enc.temp b) = 17%nat ->
  (Enc.index b < 3 ->
   Enc.PutU32 b x
   = Done ((0, None),
           Enc.mk (Enc.w b) (Enc.index b + 1)
             (put4 (Enc.store b) (Enc.index b) x) (Enc.temp b)))
  /\ (Enc.index b = 3 ->
      let p := groupWire [a0 (Enc.store b); a1 (Enc.store b);
                          a2 (Enc.store b); x] in
      let out := Write (Enc.w b) p in
      exists b' : Enc.t W,
        Enc.PutU32 b x = Done ((Z.of_nat (length p), snd (fst out)), b')
        /\ Z.of_nat (length p)
           = 1 + minimalWidth (a0 (Enc.store b)) + minimalWidth (a1 (Enc.store b))
             + minimalWidth (a2 (Enc.store b)) + minimalWidth x
        /\ Enc.w b' = snd out
        /\ Enc.index b' = match snd (fst out) with Some _ => 4 | None => 0 end).
Proof.
  intros Hi Hv Ht. split.
  - intros Hlt. destruct b as [w i s tmp]. cbn [Enc.index] in *.
    assert (C : i = 0 \/ i = 1 \/ i = 2) by lia.
    destruct s as [s0 s1 s2 s3]. destruct C as [->|[->| ->]]; reflexivity.
  - intros H3. destruct (PutU32_completes b x H3 Hv Ht) as (tmp' & Hl & E).
    cbv zeta in E |- *. eexists. split; [exact E|].
    rewrite groupWire_length. cbn [sumWidths fold_right Enc.w Enc.index].
    repeat split. lia.
Qed.

(** X5. After a failed write the encoder is unusable: when the write of a
    full group fails, [PutU32] returns the error and leaves [index] at 4, and
    every later [PutU32] panics on [store[4]]. *)
Theorem PutU32_after_failed_write (b : Enc.t W) (x : Z) (e : error) :
  Enc.index b = 3 ->
  Forall is_uint32 [a0 (Enc.store b); a1 (Enc.store b); a2 (Enc.store b); x] ->
  length (Enc.temp b) = 17%nat ->
  snd (fst (Write (Enc.w b)
              (groupWire [a0 (Enc.store b); a1 (Enc.store b);
                          a2 (Enc.store b); x]))) = Some e ->
  exists (n : Z) (b' : Enc.t W),
    Enc.PutU32 b x = Done ((n, Some e), b')
    /\ Enc.index b' = 4
    /\ forall y : Z, Enc.PutU32 b' y = Panic IndexOutOfRange.
Proof.
  intros Hi Hv Ht He.
  destruct (PutU32_completes b x Hi Hv Ht) as (tmp' & Hl & E).
  cbv zeta in E. rewrite He in E. eexists _, _. split; [exact E|].
  split; reflexivity.
Qed.
End PutFacts.

Lemma PutU32_result_witness :
  0 <= Enc.index threeEncoder <= 3
  /\ Forall is_uint32
       [a0 (Enc.store threeEncoder); a1 (Enc.store threeEncoder);
        a2 (Enc.store threeEncoder); 0]
  /\ length (Enc.temp threeEncoder) = 17%nat
  /\ Enc.index threeEncoder = 3
  /\ let p := groupWire [a0 (Enc.store threeEncoder);
                         a1 (Enc.store threeEncoder);
                         a2 (Enc.store threeEncoder); 0] in
     let out := Write (Enc.w threeEncoder) p in
     exists b' : Enc.t Buffer,
       Enc.PutU32 threeEncoder 0
       = Done ((Z.of_nat (length p), snd (fst out)), b')
       /\ Z.of_nat (length p)
          = 1 + minimalWidth (a0 (Enc.store threeEncoder))
            + minimalWidth (a1 (Enc.store threeEncoder))
            + minimalWidth (a2 (Enc.store threeEncoder)) + minimalWidth 0
       /\ Enc.w b' = snd out
       /\ Enc.index b' = match snd (fst out) with Some _ => 4 | None => 0 end.
Proof.
  assert (Hi : 0 <= Enc.index threeEncoder <= 3) by (cbn; lia).
  assert (Hv : Forall is_uint32
                 [a0 (Enc.store threeEncoder); a1 (Enc.store threeEncoder);
                  a2 (Enc.store threeEncoder); 0])
    by (apply Forall_uint32_check; reflexivity).
  split; [exact Hi|]. split; [exact Hv|]. split; [reflexivity|].
  split; [reflexivity|].
  apply (proj2 (PutU32_result threeEncoder 0 Hi Hv eq_refl) eq_refl).
Defined.

Lemma PutU32_after_failed_write_witness :
  Enc.index failedEncoder = 3
  /\ Forall is_uint32
       [a0 (Enc.store failedEncoder); a1 (Enc.store failedEncoder);
        a2 (Enc.store failedEncoder); 0]
  /\ length (Enc.temp failedEncoder) = 17%nat
  /\ snd (fst (Write (Enc.w failedEncoder)
                 (groupWire [a0 (Enc.store failedEncoder);
                             a1 (Enc.store failedEncoder);
                             a2 (Enc.store failedEncoder); 0])))
     = Some (IOError 5)
  /\ exists (n : Z) (b' : Enc.t FailedSink),
       Enc.PutU32 failedEncoder 0 = Done ((n, Some (IOError 5)), b')
       /\ Enc.index b' = 4
       /\ forall y : Z, Enc.PutU32 b' y = Panic IndexOutOfRange.
Proof.
  assert (Hv : Forall is_uint32
                 [a0 (Enc.store failedEncoder); a1 (Enc.store failedEncoder);
                  a2 (Enc.store failedEncoder); 0])
    by (apply Forall_uint32_check; reflexivity).
  split; [reflexivity|]. split; [exact Hv|]. split; [reflexivity|].
  split; [reflexivity|].
  apply (PutU32_after_failed_write failedEncoder 0 (IOError 5)).
  - reflexivity.
  - exact Hv.
  - reflexivity.
  - reflexivity.
Defined.

(** ** Getting values *)

Lemma beValue_range (bs : list byte) :
  forall g : Z, is_uint32 g -> is_uint32 (beValue g bs).
Proof.
  induction bs as [|c bs IH]; intros g Hg; [exact Hg|].
  rewrite beValue_step. apply IH. unfold is_uint32.
  apply Z.mod_pos_bound. lia.
Qed.

Section GetMore.
Context {R : Type} `{ByteReader R}.

(** X6. A whole group from any source. When the source delivers a control
    byte [c] and then the bytes [Bs] that [c] declares for the four slots,
    four calls of [GetU32] return the big-endian values of the four byte
    strings, which need not be of minimal width; the source has then been
    read up to the end of the group and no further, and the decoder is
    ready for the next group. *)
Theorem GetU32_whole_group (b : Dec.t R) (c : byte) (r1 r' : R)
        (Bs : list (list byte)) (n : nat) :
  Dec.pos b = Dec.capacity b -> Dec.capacity b = 4 ->
  Dec.finished b = false -> ReadByte (Dec.r b) = ((c, None), r1) ->
  length Bs = 4%nat -> chunked c 0 Bs -> delivers r1 (concat Bs) r' ->
  Dec.GetMany (4 + n) b
  = map got (map (beValue 0) Bs)
    ++ Dec.GetMany n (Dec.mk r' (of_list4 (map (beValue 0) Bs)) 4 false 4)
  /\ Forall is_uint32 (map (beValue 0) Bs).
Proof.
  intros Hp Hc Hf E Hl Hch Hd. split.
  - now apply (GetMany_full b c r1 r' Bs n).
  - apply List.Forall_forall. intros v Hv. apply in_map_iff in Hv as (B & <- & _).
    apply beValue_range, is_uint32_0.
Qed.

(** X7. A group cut by end of data in slot 1, 2 or 3, from any source: the
    decoder gives the values of the whole slots [Bs] before the cut, in
    order, and reports end of data at every later call; the bytes [P] read
    for the cut slot are dropped. *)
Theorem GetU32_cut_group (b : Dec.t R) (c x : byte) (r1 r2 r3 : R)
        (Bs : list (list byte)) (P : list byte) (n : nat) :
  Dec.pos b = Dec.capacity b -> Dec.finished b = false ->
  ReadByte (Dec.r b) = ((c, None), r1) ->
  (1 <= length Bs <= 3)%nat -> chunked c 0 Bs ->
  delivers r1 (concat Bs ++ P) r2 ->
  Z.of_nat (length P) < Dec.slotSize c (Z.of_nat (length Bs)) ->
  ReadByte r2 = ((x, Some EOF), r3) ->
  Dec.GetMany (length Bs + n) b
  = map got (map (beValue 0) Bs) ++ repeat eof n.
Proof.
  intros Hp Hf E Hl Hch Hd HP E2.
  now apply (GetMany_partial b c x r1 r2 r3 Bs P n).
Qed.

(** X8. A group cut by end of data in slot 0, from any source: the first
    call returns the bytes accumulated for slot 0 as a value, the next
    three return what the earlier group left in [group[1]], [group[2]] and
    [group[3]], none with an error, and the fifth call panics. *)
Theorem GetU32_cut_in_slot_0 (b : Dec.t R) (c x : byte) (r1 r2 r3 : R)
        (P : list byte) :
  Dec.pos b = Dec.capacity b -> Dec.finished b = false ->
  ReadByte (Dec.r b) = ((c, None), r1) -> delivers r1 P r2 ->
  Z.of_nat (length P) < Dec.slotSize c 0 ->
  ReadByte r2 = ((x, Some EOF), r3) ->
  Dec.GetMany 5 b
  = [got (beValue 0 P); got (a1 (Dec.group b)); got (a2 (Dec.group b));
     got (a3 (Dec.group b)); Panic IndexOutOfRange].
Proof.
  intros Hp Hf E Hd HP E2. cbn [Dec.GetMany].
  rewrite (GetU32_eof_in_slot_0 b c x r1 r2 r3 P) by assumption.
  destruct b as [r [g0 g1 g2 g3] p f cp]. reflexivity.
Qed.
End GetMore.

Lemma GetU32_whole_group_witness :
  Dec.GetMany (4 + 1)
    (Dec.New (NewReader [x40; x00; x05; x06; x07; x08; x2a]))
  = map got (map (beValue 0) [[x00; x05]; [x06]; [x07]; [x08]])
    ++ Dec.GetMany 1
         (Dec.mk (NewReader [x2a])
            (of_list4 (map (beValue 0) [[x00; x05]; [x06]; [x07]; [x08]]))
            4 false 4)
  /\ Forall is_uint32 (map (beValue 0) [[x00; x05]; [x06]; [x07]; [x08]]).
Proof.
  apply (GetU32_whole_group
           (Dec.New (NewReader [x40; x00; x05; x06; x07; x08; x2a])) x40
           (NewReader [x00; x05; x06; x07; x08; x2a]) (NewReader [x2a])
           [[x00; x05]; [x06]; [x07]; [x08]] 1).
  - reflexivity.
  - reflexivity.
  - reflexivity.
  - reflexivity.
  - reflexivity.
  - cbn [chunked]. repeat split; reflexivity.
  - apply (Reader_delivers [x00; x05; x06; x07; x08] [x2a]).
Defined.

Lemma GetU32_cut_group_witness :
  Dec.GetMany (length [[x00; x05]; [x06]] + 2)
    (Dec.New (NewReader [x40; x00; x05; x06]))
  = map got (map (beValue 0) [[x00; x05]; [x06]]) ++ repeat eof 2.
Proof.
  apply (GetU32_cut_group (Dec.New (NewReader [x40; x00; x05; x06])) x40 x00
           (NewReader [x00; x05; x06]) (NewReader []) (NewReader [])
           [[x00; x05]; [x06]] [] 2).
  - reflexivity.
  - reflexivity.
  - reflexivity.
  - cbn [length]. lia.
  - cbn [chunked]. repeat split; reflexivity.
  - apply (Reader_delivers [x00; x05; x06] []).
  - reflexivity.
  - reflexivity.
Defined.

Lemma GetU32_cut_in_slot_0_witness :
  Dec.GetMany 5 (Dec.mk (NewReader [x40; x01]) (Arr4 1 2 3 4) 4 false 4)
  = [got (beValue 0 [x01]); got 2; got 3; got 4; Panic IndexOutOfRange].
Proof.
  apply (GetU32_cut_in_slot_0
           (Dec.mk (NewReader [x40; x01]) (Arr4 1 2 3 4) 4 false 4) x40 x00
           (NewReader [x01]) (NewReader []) (NewReader []) [x01]).
  - reflexivity.
  - reflexivity.
  - reflexivity.
  - apply (Reader_delivers [x01] []).
  - reflexivity.
  - reflexivity.
Defined.

(** X9. Every byte is a control byte: the sizes the decoder reads from a
    byte [c] lie between 1 and 4, and packing them as the encoder does gives
    [c] back. *)
Theorem every_byte_is_a_control_byte (c : byte) :
  (1 <= Dec.slotSize c 0 <= 4) /\ (1 <= Dec.slotSize c 1 <= 4)
  /\ (1 <= Dec.slotSize c 2 <= 4) /\ (1 <= Dec.slotSize c 3 <= 4)
  /\ Enc.orSize
       (Enc.orSize
          (Enc.orSize (Enc.orSize x00 (Dec.slotSize c 0) 0)
             (Dec.slotSize c 1) 1)
          (Dec.slotSize c 2) 2)
       (Dec.slotSize c 3) 3
     = c.
Proof.
  destruct c; vm_compute; repeat split; congruence.
Qed.

(** X10. Decoding any well-ended slice: if [s] is a sequence of whole
    groups ended by the end of the slice or by a group cut in slot 1, 2 or
    3, a fresh decoder over [s] gives the values of the whole slots in order
    and then end of data at every further call, without a panic. *)
Theorem decode_parses (s : list byte) (vs : list Z) :
  parses s vs ->
  forall n : nat, decode (length vs + n) s = map got vs ++ repeat eof n.
Proof.
  intros Hp. unfold decode.
  enough (G : forall (b : Dec.t Reader) (n : nat),
             Dec.r b = NewReader s -> Dec.pos b = Dec.capacity b ->
             Dec.capacity b = 4 -> Dec.finished b = false ->
             Dec.GetMany (length vs + n) b = map got vs ++ repeat eof n)
    by (intros n; apply G; reflexivity).
  induction Hp as [|c Bs rest vs Hl Hch Hp IH|c Bs P Hl Hch HP];
    intros b n Hr Hpos Hcap Hf.
  - now apply GetMany_end.
  - rewrite length_app, length_map, Hl.
    change (4 + length vs + n)%nat with (4 + (length vs + n))%nat.
    rewrite (GetMany_full b c (NewReader (concat Bs ++ rest)) (NewReader rest)
               Bs); try assumption.
    + rewrite map_app, <- app_assoc. f_equal. apply IH; reflexivity.
    + now rewrite Hr.
    + apply Reader_delivers.
  - rewrite length_map.
    apply (GetMany_partial b c x00 (NewReader (concat Bs ++ P)) (NewReader [])
             (NewReader []) Bs P n); try assumption.
    + now rewrite Hr.
    + rewrite <- (app_nil_r (concat Bs ++ P)) at 1. apply Reader_delivers.
    + reflexivity.
Qed.

Lemma decode_parses_witness :
  parses ([x40; x00; x05; x06; x07; x08] ++ [x00; x09]) [5; 6; 7; 8; 9]
  /\ forall n : nat,
       decode (length [5; 6; 7; 8; 9]%Z + n)
         ([x40; x00; x05; x06; x07; x08] ++ [x00; x09])
       = map got [5; 6; 7; 8; 9] ++ repeat eof n.
Proof.
  assert (Hp : parses ([x40; x00; x05; x06; x07; x08] ++ [x00; x09])
                 [5; 6; 7; 8; 9]).
  { apply (parses_group x40 [[x00; x05]; [x06]; [x07]; [x08]] [x00; x09] [9]).
    - reflexivity.
    - cbn [chunked]. repeat split; reflexivity.
    - apply (parses_cut x00 [[x09]] []).
      + cbn [length]. lia.
      + cbn [chunked]. repeat split; reflexivity.
      + reflexivity. }
  split; [exact Hp|].
  apply (decode_parses _ _ Hp).
Defined.

(** ** Base-128 varints, encoded and read back *)

Lemma lor_shift_add (a v s : Z) :
  0 <= a < 2 ^ s -> 0 <= s -> Z.lor a (v * 2 ^ s) = a + v * 2 ^ s.
Proof.
  intros Ha Hs. rewrite <- Z.add_lor_land.
  assert (E : Z.land a (v * 2 ^ s) = 0).
  { apply Z.bits_inj'. intros n Hn. rewrite Z.land_spec, Z.bits_0.
    destruct (Z.lt_ge_cases n s) as [Hlt|Hge].
    - rewrite Z.mul_pow2_bits_low by assumption. apply andb_false_r.
    - rewrite <- (Z.mod_small a (2 ^ s)) by assumption.
      rewrite Z.mod_pow2_bits_high by lia. reflexivity. }
  rewrite E. lia.
Qed.

(** The byte written for a seven-bit group that is not the last one. *)
Lemma continuation_byte (x : Z) :
  0 <= x ->
  let c := byte_of_Z (Z.lor (Z_of_byte (byte_of_Z x)) 128) in
  128 <= Z_of_byte c /\ Z.land (Z_of_byte c) 127 = x mod 128.
Proof.
  intros Hx.
  assert (Hb : forall b : byte,
             128 <= Z_of_byte (byte_of_Z (Z.lor (Z_of_byte b) 128))
             /\ Z.land (Z_of_byte (byte_of_Z (Z.lor (Z_of_byte b) 128))) 127
                = Z_of_byte b mod 128).
  { intros b. destruct b; vm_compute; split; congruence. }
  cbv zeta. destruct (Hb (byte_of_Z x)) as [H1 H2]. split; [exact H1|].
  rewrite H2, Z_of_byte_of_Z. Z.div_mod_to_equations. lia.
Qed.

Lemma final_byte (x : Z) :
  0 <= x < 128 ->
  Z_of_byte (byte_of_Z x) = x /\ Z.land (Z_of_byte (byte_of_Z x)) 127 = x.
Proof.
  intros Hx. rewrite Z_of_byte_of_Z, Z.mod_small by lia. split; [reflexivity|].
  change 127 with (Z.ones 7). rewrite Z.land_ones by lia.
  apply Z.mod_small. change (2 ^ 7) with 128. lia.
Qed.

(** The bytes of a uvarint carry its value, seven bits a byte. *)
Lemma uvarintValue_bytes (n : nat) :
  forall x : Z,
    (1 <= n)%nat -> 0 <= x < 2 ^ (7 * Z.of_nat n) ->
    uvarintValue (uvarintBytes n x) = x.
Proof.
  induction n as [|n IH]; intros x Hn Hx; [lia|].
  cbn [uvarintBytes]. destruct (Z.leb_spec 128 x) as [Hge|Hlt].
  - cbn [uvarintValue].
    destruct (continuation_byte x ltac:(lia)) as [_ E]. cbv zeta in E.
    rewrite E. rewrite IH.
    + rewrite Z.shiftr_div_pow2 by lia. change (2 ^ 7) with 128.
      Z.div_mod_to_equations. lia.
    + destruct n; [|lia]. change (2 ^ (7 * Z.of_nat 1)) with 128 in Hx. lia.
    + now apply shiftr7_bound.
  - cbn [uvarintValue]. destruct (final_byte x ltac:(lia)) as [_ E].
    rewrite E. lia.
Qed.

(** Every byte of a uvarint but the last has the continuation bit, the last
    has not. *)
Lemma uvarintBytes_shape (n : nat) :
  forall x : Z,
    (1 <= n)%nat -> 0 <= x < 2 ^ (7 * Z.of_nat n) ->
    exists (front : list byte) (c : byte),
      uvarintBytes n x = front ++ [c]
      /\ Forall (fun d => 128 <= Z_of_byte d) front
      /\ Z_of_byte c < 128.
Proof.
  induction n as [|n IH]; intros x Hn Hx; [lia|].
  cbn [uvarintBytes]. destruct (Z.leb_spec 128 x) as [Hge|Hlt].
  - destruct (IH (Z.shiftr x 7)) as (front & c & E & Hf & Hc).
    + destruct n; [|lia]. change (2 ^ (7 * Z.of_nat 1)) with 128 in Hx. lia.
    + now apply shiftr7_bound.
    + exists (byte_of_Z (Z.lor (Z_of_byte (byte_of_Z x)) 128) :: front), c.
      rewrite E. split; [reflexivity|]. split; [|exact Hc].
      apply List.Forall_cons; [|exact Hf].
      apply (continuation_byte x). lia.
  - exists [], (byte_of_Z x). split; [reflexivity|].
    split; [apply List.Forall_nil|].
    destruct (final_byte x ltac:(lia)) as [E _]. rewrite E. lia.
Qed.

(** X11. [PutU64] is total on uint64: it assembles between one and ten
    bytes in its ten-byte buffer without a panic and returns what the writer
    returns for them. The bytes carry [x] seven bits at a time, least
    significant first; all but the last have the continuation bit set. *)
Theorem PutU64_bytes {W : Type} `{Writer W} (b : Base128Encoder.t W) (x : Z) :
  is_uint64 x ->
  exists (front : list byte) (c : byte),
    Base128Encoder.PutU64 b x
    = Done (fst (Write (Base128Encoder.w b) (front ++ [c])),
            Base128Encoder.mk (snd (Write (Base128Encoder.w b) (front ++ [c]))))
    /\ (length front <= 9)%nat
    /\ Forall (fun d => 128 <= Z_of_byte d) front
    /\ Z_of_byte c < 128
    /\ uvarintValue (front ++ [c]) = x.
Proof.
  intros [Hx0 Hx1].
  assert (H70 : 0 <= x < 2 ^ (7 * Z.of_nat 10))
    by (change (2 ^ (7 * Z.of_nat 10)) with (2 ^ 64 * 64); lia).
  destruct (PutUvarint_spec 10 x ltac:(lia) H70) as (buf & E & S).
  destruct (uvarintBytes_shape 10 x ltac:(lia) H70) as (front & c & Eb & Hf & Hc).
  pose proof (uvarintValue_bytes 10 x ltac:(lia) H70) as Hval.
  pose proof (uvarintBytes_length 10 x) as Hlen.
  rewrite Eb in *. exists front, c.
  unfold Base128Encoder.PutU64, binary.MaxVarintLen64.
  rewrite E, bind_Done. cbv beta iota. rewrite S, bind_Done.
  rewrite length_app in Hlen. cbn [length] in Hlen.
  split; [|repeat split; try assumption; lia].
  destruct (Write (Base128Encoder.w b) (front ++ [c])). reflexivity.
Qed.

Lemma PutU64_bytes_witness :
  is_uint64 18446744073709551615
  /\ exists (front : list byte) (c : byte),
       Base128Encoder.PutU64 (Base128Encoder.mk ([] : Buffer))
         18446744073709551615
       = Done (fst (Write ([] : Buffer) (front ++ [c])),
               Base128Encoder.mk (snd (Write ([] : Buffer) (front ++ [c]))))
       /\ (length front <= 9)%nat
       /\ Forall (fun d => 128 <= Z_of_byte d) front
       /\ Z_of_byte c < 128
       /\ uvarintValue (front ++ [c]) = 18446744073709551615.
Proof.
  split.
  - unfold is_uint64. lia.
  - apply (PutU64_bytes (Base128Encoder.mk ([] : Buffer)) 18446744073709551615).
    unfold is_uint64. lia.
Defined.

Lemma ReadByte_cons (c : byte) (l : list byte) :
  ReadByte (NewReader (c :: l)) = ((c, None), NewReader l).
Proof. reflexivity. Qed.

Lemma wrap64_shiftl (v s : Z) :
  0 <= s -> 0 <= v -> v * 2 ^ s < 2 ^ 64 ->
  wrap64 (Z.shiftl v s) = v * 2 ^ s.
Proof.
  intros Hs Hv Hlt. rewrite Z.shiftl_mul_pow2 by assumption.
  unfold wrap64. apply Z.mod_small. split; [|assumption].
  apply Z.mul_nonneg_nonneg; [assumption|]. apply Z.pow_nonneg. lia.
Qed.

(** Reading the bytes of a uvarint: with [i] bytes read, carrying the value
    [acc] below [2^(7i)], the loop reads the bytes of [y] and returns
    [acc + y * 2^(7i)], leaving what follows in the source. *)
Lemma readLoop_uvarint (n : nat) :
  forall (i acc y : Z) (rest : list byte),
    (1 <= n)%nat -> 0 <= i -> i + Z.of_nat n = 10 ->
    0 <= acc < 2 ^ (7 * i) -> 0 <= y -> y * 2 ^ (7 * i) < 2 ^ 64 ->
    binaryRead.readLoop n i acc (7 * i) (NewReader (uvarintBytes n y ++ rest))
    = ((acc + y * 2 ^ (7 * i), None), NewReader rest).
Proof.
  induction n as [|n IH]; intros i acc y rest Hn Hi Hin Hacc Hy Hlt; [lia|].
  assert (HP : 0 < 2 ^ (7 * i)) by (apply Z.pow_pos_nonneg; lia).
  cbn [uvarintBytes binaryRead.readLoop].
  destruct (Z.leb_spec 128 y) as [Hge|Hsmall].
  - cbn [app]. rewrite ReadByte_cons.
    destruct (continuation_byte y Hy) as [Hc1 Hc2]. cbv zeta in Hc1, Hc2.
    replace (Z_of_byte (byte_of_Z (Z.lor (Z_of_byte (byte_of_Z y)) 128)) <? 128)
      with false by (symmetry; apply Z.ltb_ge; exact Hc1).
    rewrite Hc2.
    assert (Hm : 0 <= y mod 128 < 128) by (apply Z.mod_pos_bound; lia).
    assert (Hd : y = 128 * (y / 128) + y mod 128)
      by (apply Z.div_mod; lia).
    assert (Hq : 0 <= y / 128) by (apply Z.div_pos; lia).
    assert (Hs7 : 2 ^ (7 * (i + 1)) = 2 ^ (7 * i) * 128).
    { replace (7 * (i + 1)) with (7 * i + 7) by lia.
      rewrite Z.pow_add_r by lia. reflexivity. }
    rewrite wrap64_shiftl by nia.
    rewrite lor_shift_add by lia.
    assert (Hi8 : i <= 8).
    { destruct (Z.le_gt_cases i 8) as [|Hgt]; [assumption|].
      assert (Hmono : 2 ^ (7 * 9) <= 2 ^ (7 * i))
        by (apply Z.pow_le_mono_r; lia).
      change (2 ^ (7 * 9)) with (2 ^ 63) in Hmono.
      change (2 ^ 64) with (2 ^ 63 * 2) in Hlt. nia. }
    replace (7 * i + 7) with (7 * (i + 1)) by lia.
    rewrite Z.shiftr_div_pow2 by lia. change (2 ^ 7) with 128.
    rewrite (IH (i + 1) _ (y / 128) rest); [|lia|lia|lia|nia|lia|nia].
    f_equal. f_equal. nia.
  - cbn [app]. rewrite ReadByte_cons.
    destruct (final_byte y ltac:(lia)) as [E _]. rewrite E.
    replace (y <? 128) with true by (symmetry; apply Z.ltb_lt; lia).
    assert (Hchk : (i =? 9) && (1 <? y) = false).
    { destruct (Z.eqb_spec i 9) as [->|]; [|reflexivity].
      change (2 ^ (7 * 9)) with (2 ^ 63) in Hlt.
      change (2 ^ 64) with (2 ^ 63 * 2) in Hlt.
      apply Z.ltb_ge. nia. }
    rewrite Hchk. rewrite wrap64_shiftl, lor_shift_add by lia. reflexivity.
Qed.

Lemma ReadUvarint_bytes (x : Z) (rest : list byte) :
  is_uint64 x ->
  binaryRead.ReadUvarint (NewReader (uvarintBytes 10 x ++ rest))
  = ((x, None), NewReader rest).
Proof.
  intros [H0 H1]. unfold binaryRead.ReadUvarint, binary.MaxVarintLen64.
  change 0 with (7 * 0) at 3.
  rewrite (readLoop_uvarint 10 0 0 x rest);
    [|lia|lia|reflexivity|cbn; lia|lia|cbn; lia].
  f_equal. f_equal. cbn. lia.
Qed.

(** X12. Base-128 round trip on 64 bits: the bytes [p] that [PutU64]
    writes for a uint64 [x] are read back by [GetU64] as [x] without error,
    whatever follows them in the source, which is left just after [p];
    [GetU32] on the same bytes returns the low 32 bits of [x], also without
    error. *)
Theorem base128_roundtrip_64 (x : Z) :
  is_uint64 x ->
  exists p : list byte,
    Base128Encoder.PutU64 (Base128Encoder.mk ([] : Buffer)) x
    = Done ((Z.of_nat (length p), None), Base128Encoder.mk p)
    /\ forall rest : list byte,
         Base128Decoder.GetU64 (Base128Decoder.mk (NewReader (p ++ rest)))
         = ((x, None), Base128Decoder.mk (NewReader rest))
         /\ Base128Decoder.GetU32 (Base128Decoder.mk (NewReader (p ++ rest)))
            = ((x mod 2 ^ 32, None), Base128Decoder.mk (NewReader rest)).
Proof.
  intros Hx. pose proof Hx as [Hx0 Hx1]. exists (uvarintBytes 10 x).
  assert (H70 : 0 <= x < 2 ^ (7 * Z.of_nat 10))
    by (change (2 ^ (7 * Z.of_nat 10)) with (2 ^ 64 * 64); lia).
  destruct (PutUvarint_spec 10 x ltac:(lia) H70) as (buf & E & S).
  split.
  - unfold Base128Encoder.PutU64, binary.MaxVarintLen64.
    rewrite E, bind_Done. cbv beta iota. rewrite S, bind_Done. reflexivity.
  - intros rest.
    unfold Base128Decoder.GetU64, Base128Decoder.GetU32.
    cbn [Base128Decoder.r]. rewrite ReadUvarint_bytes by assumption.
    split; reflexivity.
Qed.

Lemma base128_roundtrip_64_witness :
  is_uint64 18446744073709551615
  /\ exists p : list byte,
       Base128Encoder.PutU64 (Base128Encoder.mk ([] : Buffer))
         18446744073709551615
       = Done ((Z.of_nat (length p), None), Base128Encoder.mk p)
       /\ forall rest : list byte,
            Base128Decoder.GetU64 (Base128Decoder.mk (NewReader (p ++ rest)))
            = ((18446744073709551615, None),
               Base128Decoder.mk (NewReader rest))
            /\ Base128Decoder.GetU32
                 (Base128Decoder.mk (NewReader (p ++ rest)))
               = ((18446744073709551615 mod 2 ^ 32, None),
                  Base128Decoder.mk (NewReader rest)).
Proof.
  split.
  - unfold is_uint64. lia.
  - apply (base128_roundtrip_64 18446744073709551615).
    unfold is_uint64. lia.
Defined.

(** X13. Base-128 round trip on 32 bits: the bytes [p], at most five, that
    [PutU32] writes for a uint32 [x] are read back as [x] by [GetU32], and
    by [GetU64] as well, without error, whatever follows them in the
    source. *)
Theorem base128_roundtrip_32 (x : Z) :
  is_uint32 x ->
  exists p : list byte,
    Base128Encoder.PutU32 (Base128Encoder.mk ([] : Buffer)) x
    = Done ((Z.of_nat (length p), None), Base128Encoder.mk p)
    /\ (1 <= length p <= 5)%nat
    /\ forall rest : list byte,
         Base128Decoder.GetU32 (Base128Decoder.mk (NewReader (p ++ rest)))
         = ((x, None), Base128Decoder.mk (NewReader rest))
         /\ Base128Decoder.GetU64 (Base128Decoder.mk (NewReader (p ++ rest)))
            = ((x, None), Base128Decoder.mk (NewReader rest)).
Proof.
  intros Hx. pose proof Hx as [Hx0 Hx1]. exists (uvarintBytes 5 x).
  assert (Hw : wrap64 x = x) by (unfold wrap64; apply Z.mod_small; lia).
  assert (H35 : 0 <= x < 2 ^ (7 * Z.of_nat 5))
    by (change (2 ^ (7 * Z.of_nat 5)) with (2 ^ 32 * 8); lia).
  assert (H64 : is_uint64 x) by (unfold is_uint64; lia).
  destruct (PutUvarint_spec 5 x ltac:(lia) H35) as (buf & E & S).
  split; [|split].
  - unfold Base128Encoder.PutU32, binary.MaxVarintLen32.
    rewrite Hw, E, bind_Done. cbv beta iota. rewrite S, bind_Done. reflexivity.
  - pose proof (uvarintBytes_length 5 x). split; [|lia].
    cbn [uvarintBytes]. destruct (128 <=? x); cbn [length]; lia.
  - intros rest.
    rewrite <- (uvarintBytes_room 5 5 x ltac:(lia) H35).
    change (5 + 5)%nat with 10%nat.
    unfold Base128Decoder.GetU64, Base128Decoder.GetU32.
    cbn [Base128Decoder.r]. rewrite ReadUvarint_bytes by assumption.
    unfold wrap32. rewrite Z.mod_small by lia. split; reflexivity.
Qed.

Lemma base128_roundtrip_32_witness :
  is_uint32 4294967295
  /\ exists p : list byte,
       Base128Encoder.PutU32 (Base128Encoder.mk ([] : Buffer)) 4294967295
       = Done ((Z.of_nat (length p), None), Base128Encoder.mk p)
       /\ (1 <= length p <= 5)%nat
       /\ forall rest : list byte,
            Base128Decoder.GetU32 (Base128Decoder.mk (NewReader (p ++ rest)))
            = ((4294967295, None), Base128Decoder.mk (NewReader rest))
            /\ Base128Decoder.GetU64
                 (Base128Decoder.mk (NewReader (p ++ rest)))
               = ((4294967295, None), Base128Decoder.mk (NewReader rest)).
Proof.
  split.
  - unfold is_uint32. lia.
  - apply (base128_roundtrip_32 4294967295). unfold is_uint32. lia.
Defined.

(** ** Losslessness *)

Lemma got_eof_prefix (vs1 vs2 : list Z) :
  forall n1 n2 : nat,
    map got vs1 ++ repeat eof n1 = map got vs2 ++ repeat eof n2 ->
    vs1 = vs2.
Proof.
  revert vs2. induction vs1 as [|v vs1 IH]; intros [|v' vs2] n1 n2 E;
    cbn [map app] in E.
  - reflexivity.
  - destruct n1; cbn [repeat] in E; discriminate E.
  - destruct n2; cbn [repeat] in E; discriminate E.
  - injection E as Ev E.
    f_equal; [unfold got in Ev; congruence | exact (IH vs2 n1 n2 E)].
Qed.

Lemma roundtrip_general (vs : list Z) (n : nat) :
  Forall is_uint32 vs ->
  exists s : list byte,
    encode vs = Done s
    /\ decode (length vs + n) s = map got vs ++ repeat eof n.
Proof.
  intros Hv. exists (wire vs).
  split; [apply encode_wire | apply decode_wire]; assumption.
Qed.

(** X14. The encoding is injective: two sequences of uint32 values, of the
    same length or not, that are encoded to the same bytes are equal. In
    particular a sequence and the same sequence with zeros appended have
    different encodings, although the missing slots of a partial group are
    computed as zeros. *)
Theorem encode_injective (vs1 vs2 : list Z) :
  Forall is_uint32 vs1 -> Forall is_uint32 vs2 ->
  encode vs1 = encode vs2 -> vs1 = vs2.
Proof.
  intros H1 H2 E.
  destruct (roundtrip_general vs1 (length vs2) H1) as (s1 & E1 & D1).
  destruct (roundtrip_general vs2 (length vs1) H2) as (s2 & E2 & D2).
  rewrite E1, E2 in E. injection E as ->.
  replace (length vs2 + length vs1)%nat with (length vs1 + length vs2)%nat
    in D2 by lia.
  rewrite D1 in D2. exact (got_eof_prefix _ _ _ _ D2).
Qed.

Lemma encode_injective_witness :
  Forall is_uint32 [5; 0] /\ Forall is_uint32 [5; 0]
  /\ encode [5; 0] = encode [5; 0] /\ [5; 0] = [5; 0] :> list Z.
Proof.
  assert (Hv : Forall is_uint32 [5; 0]) by (apply Forall_uint32_check; reflexivity).
  split; [exact Hv|]. split; [exact Hv|]. split; [reflexivity|].
  apply (encode_injective [5; 0] [5; 0] Hv Hv eq_refl).
Defined.

(** ** Groups flushed from any encoder state *)

Lemma wire_single (vs : list Z) :
  (1 <= length vs <= 4)%nat -> wire vs = groupWire vs.
Proof.
  intros Hl.
  destruct vs as [|v0 [|v1 [|v2 [|v3 [|? ?]]]]]; cbn [length] in Hl; try lia;
    cbn [wire]; rewrite ?app_nil_r; reflexivity.
Qed.

(** The group of [vs] followed by zeros is the group of [vs] followed by one
    zero byte for each missing slot. *)
Lemma groupWire_padded (vs : list Z) :
  (1 <= length vs <= 3)%nat ->
  groupWire (vs ++ repeat 0 (4 - length vs))
  = groupWire vs ++ repeat x00 (4 - length vs).
Proof.
  intros Hl.
  destruct vs as [|v0 [|v1 [|v2 [|? ?]]]]; cbn [length] in Hl; try lia;
    cbn [length Nat.sub repeat app]; unfold groupWire; cbn [nth map concat app];
    change (slotBytes 0) with [x00];
    rewrite ?app_nil_r, <- ?app_assoc; reflexivity.
Qed.

Lemma Forall_uint32_padded (vs : list Z) (k : nat) :
  Forall is_uint32 vs -> Forall is_uint32 (vs ++ repeat 0 k).
Proof.
  intros Hv. apply Forall_app. split; [assumption|].
  apply List.Forall_forall. intros x Hx%repeat_spec. subst x.
  apply is_uint32_0.
Qed.

Section FlushAnywhere.
Context {W : Type} `{Writer W}.

(** [Flush] from any state with [vs] pending, whatever the rest of [store]
    and [temp] hold: the writer receives the group of [vs]. *)
Lemma Flush_hands (b : Enc.t W) (vs : list Z) :
  Forall is_uint32 vs -> (1 <= length vs <= 4)%nat ->
  Enc.index b = Z.of_nat (length vs) ->
  take (length vs) (to_list4 (Enc.store b)) = vs ->
  length (Enc.temp b) = 17%nat ->
  exists b' : Enc.t W,
    Enc.Flush b
    = Done ((Z.of_nat (length (groupWire vs)),
             snd (fst (Write (Enc.w b) (groupWire vs)))), b')
    /\ Enc.w b' = snd (Write (Enc.w b) (groupWire vs))
    /\ Enc.index b' = Enc.index b
    /\ Enc.store b' = of_list4 vs
    /\ length (Enc.temp b') = 17%nat.
Proof.
  intros Hv Hl Hi Hs Ht.
  destruct (Flush_spec b vs Hv Hl Hi Hs Ht) as (tmp' & E & Hl').
  eexists. split; [exact E|]. repeat split. exact Hl'.
Qed.

(** C5. Partial group, from any encoder state. Let an encoder have
    [count] = 1, 2 or 3 values [vs] pending, whatever the rest of [store] and
    [temp] hold from earlier groups, and let another hold the full group of
    [vs] followed by zeros. [Flush] on the first hands its writer the bytes
    [c :: body], and on the second the bytes [c :: body ++ pad] with
    [4 - count] bytes [pad]: the partial output is the full one minus its
    last [4 - count] bytes, with the control byte [c] unmodified, which
    declares the size 1 for each missing slot; [store] is left padded with
    zeros. Decoding [c :: body] gives the values of [vs] and then end of
    data. The same bytes are written for [vs] at the end of a stream, after
    any number of full groups. *)
Theorem partial_group (b b4 : Enc.t W) (vs : list Z) (n : nat) :
  Forall is_uint32 vs -> (1 <= length vs <= 3)%nat ->
  Enc.index b = Z.of_nat (length vs) ->
  take (length vs) (to_list4 (Enc.store b)) = vs ->
  length (Enc.temp b) = 17%nat ->
  Enc.index b4 = 4 ->
  to_list4 (Enc.store b4) = vs ++ repeat 0 (4 - length vs) ->
  length (Enc.temp b4) = 17%nat ->
  exists (c : byte) (body pad : list byte) (b' b4' : Enc.t W),
    Enc.Flush b
    = Done ((Z.of_nat (length (c :: body)),
             snd (fst (Write (Enc.w b) (c :: body)))), b')
    /\ Enc.w b' = snd (Write (Enc.w b) (c :: body))
    /\ Enc.store b' = of_list4 vs
    /\ Enc.Flush b4
       = Done ((Z.of_nat (length (c :: body ++ pad)),
                snd (fst (Write (Enc.w b4) (c :: body ++ pad)))), b4')
    /\ Enc.w b4' = snd (Write (Enc.w b4) (c :: body ++ pad))
    /\ length pad = (4 - length vs)%nat
    /\ (length (c :: body) + (4 - length vs) = length (c :: body ++ pad))%nat
    /\ (forall i : Z, Z.of_nat (length vs) <= i <= 3 -> Dec.slotSize c i = 1)
    /\ decode (length vs + n) (c :: body) = map got vs ++ repeat eof n
    /\ encode vs = Done (c :: body)
    /\ encode (vs ++ repeat 0 (4 - length vs)) = Done (c :: body ++ pad)
    /\ (forall (full : list Z) (k : nat),
          Forall is_uint32 full -> length full = (4 * k)%nat ->
          exists s : list byte,
            encode full = Done s
            /\ encode (full ++ vs) = Done (s ++ c :: body)).
Proof.
  intros Hv Hl Hi Hs Ht Hi4 Hs4 Ht4.
  pose proof (Forall_uint32_padded vs (4 - length vs) Hv) as Hv4.
  assert (Hl4 : length (vs ++ repeat 0 (4 - length vs)) = 4%nat)
    by (rewrite length_app, repeat_length; lia).
  destruct (Flush_hands b vs Hv ltac:(lia) Hi Hs Ht)
    as (b' & E & Hw & _ & Hst & _).
  destruct (Flush_hands b4 (vs ++ repeat 0 (4 - length vs)) Hv4 ltac:(lia))
    as (b4' & E4 & Hw4 & _ & _ & _).
  { rewrite Hl4. exact Hi4. }
  { rewrite Hl4, Hs4. apply take_ge. rewrite Hl4. lia. }
  { exact Ht4. }
  rewrite groupWire_padded in E4, Hw4 by assumption.
  exists (controlByte (minimalWidth (nth 0 vs 0)) (minimalWidth (nth 1 vs 0))
            (minimalWidth (nth 2 vs 0)) (minimalWidth (nth 3 vs 0))),
    (concat (map slotBytes vs)), (repeat x00 (4 - length vs)), b', b4'.
  fold (groupWire vs).
  change (groupWire vs ++ repeat x00 (4 - length vs))
    with (controlByte (minimalWidth (nth 0 vs 0)) (minimalWidth (nth 1 vs 0))
            (minimalWidth (nth 2 vs 0)) (minimalWidth (nth 3 vs 0))
          :: concat (map slotBytes vs) ++ repeat x00 (4 - length vs))
    in E4, Hw4.
  split; [exact E|]. split; [exact Hw|]. split; [exact Hst|].
  split; [exact E4|]. split; [exact Hw4|].
  split; [apply repeat_length|].
  split; [unfold groupWire; cbn [length]; rewrite length_app, repeat_length;
          lia|].
  split; [|split; [|split; [|split]]].
  - pose proof (slotSize_controlByte _ _ _ _
                  (minimalWidth_range (nth 0 vs 0))
                  (minimalWidth_range (nth 1 vs 0))
                  (minimalWidth_range (nth 2 vs 0))
                  (minimalWidth_range (nth 3 vs 0))) as (E0 & E1 & E2 & E3).
    intros i Hi'.
    destruct vs as [|v0 [|v1 [|v2 [|? ?]]]]; cbn [length] in Hl, Hi'; try lia;
      cbn [nth] in *; change (minimalWidth 0) with 1 in *.
    + assert (C : i = 1 \/ i = 2 \/ i = 3) by lia.
      destruct C as [->|[->| ->]]; assumption.
    + assert (C : i = 2 \/ i = 3) by lia. destruct C as [->| ->]; assumption.
    + assert (C : i = 3) by lia. subst i. assumption.
  - rewrite <- (wire_single vs) by lia. now apply decode_wire.
  - rewrite (encode_wire vs Hv), wire_single by lia. reflexivity.
  - rewrite (encode_wire _ Hv4), wire_single by lia.
    rewrite groupWire_padded by assumption. reflexivity.
  - intros full k Hf Hk. exists (wire full).
    rewrite (encode_wire full Hf).
    rewrite encode_wire by (apply Forall_app; auto).
    rewrite (wire_app k) by assumption. rewrite (wire_single vs) by lia.
    auto.
Qed.

(** C6. Every control byte that [Flush] emits, from any encoder state
    with one to four values [vs] pending and whatever else [store] and
    [temp] hold: the byte [c] at the head of the bytes handed to the writer
    holds, for each slot [i] of 0..3, a two-bit field at the bits [7 - 2i]
    and [6 - 2i] (slot 0 in the most significant bits) that stores the byte
    width of the slot minus one, the width of a missing slot being that of 0;
    each value present occupies that many bytes after [c]; and the decoder
    computes the size of slot [i] from the same bits, plus one. The same
    holds for the control byte of the last group of a stream, after any
    number of full groups. *)
Theorem control_byte_layout (b : Enc.t W) (vs : list Z) (i : Z) :
  Forall is_uint32 vs -> (1 <= length vs <= 4)%nat ->
  Enc.index b = Z.of_nat (length vs) ->
  take (length vs) (to_list4 (Enc.store b)) = vs ->
  length (Enc.temp b) = 17%nat -> 0 <= i <= 3 ->
  exists (c : byte) (b' : Enc.t W),
    Enc.Flush b
    = Done ((Z.of_nat (length (c :: concat (map slotBytes vs))),
             snd (fst (Write (Enc.w b) (c :: concat (map slotBytes vs))))), b')
    /\ Enc.w b' = snd (Write (Enc.w b) (c :: concat (map slotBytes vs)))
    /\ (let field := Z.land (Z.shiftr (Z_of_byte c) (6 - 2 * i)) 3 in
        let v := nth (Z.to_nat i) vs 0 in
        field = Z.of_nat (length (slotBytes v)) - 1
        /\ 0 <= field <= 3
        /\ Z.testbit (Z_of_byte c) (7 - 2 * i) = Z.testbit field 1
        /\ Z.testbit (Z_of_byte c) (6 - 2 * i) = Z.testbit field 0
        /\ Dec.slotSize c i = field + 1)
    /\ encode vs = Done (c :: concat (map slotBytes vs))
    /\ (forall (full : list Z) (k : nat),
          Forall is_uint32 full -> length full = (4 * k)%nat ->
          exists s : list byte,
            encode full = Done s
            /\ encode (full ++ vs)
               = Done (s ++ c :: concat (map slotBytes vs))).
Proof.
  intros Hv Hl Hi Hs Ht Hi3.
  destruct (Flush_hands b vs Hv Hl Hi Hs Ht) as (b' & E & Hw & _ & _ & _).
  exists (controlByte (minimalWidth (nth 0 vs 0)) (minimalWidth (nth 1 vs 0))
            (minimalWidth (nth 2 vs 0)) (minimalWidth (nth 3 vs 0))), b'.
  fold (groupWire vs).
  split; [exact E|]. split; [exact Hw|]. split; [|split].
  - pose proof (controlByte_fields _ _ _ _ i
                  (minimalWidth_range (nth 0 vs 0))
                  (minimalWidth_range (nth 1 vs 0))
                  (minimalWidth_range (nth 2 vs 0))
                  (minimalWidth_range (nth 3 vs 0)) Hi3) as (F & T1 & T0 & S).
    cbv zeta. rewrite slotBytes_length.
    assert (En : nth (Z.to_nat i)
                   [minimalWidth (nth 0 vs 0); minimalWidth (nth 1 vs 0);
                    minimalWidth (nth 2 vs 0); minimalWidth (nth 3 vs 0)] 0
                 = minimalWidth (nth (Z.to_nat i) vs 0)).
    { assert (Ci : i = 0 \/ i = 1 \/ i = 2 \/ i = 3) by lia.
      destruct Ci as [->|[->|[->| ->]]]; reflexivity. }
    rewrite En in F. pose proof (minimalWidth_range (nth (Z.to_nat i) vs 0)).
    repeat split; try assumption; lia.
  - rewrite (encode_wire vs Hv), wire_single by assumption. reflexivity.
  - intros full k Hf Hk. exists (wire full).
    rewrite (encode_wire full Hf).
    rewrite encode_wire by (apply Forall_app; auto).
    rewrite (wire_app k) by assumption.
    rewrite (wire_single vs) by assumption. auto.
Qed.
End FlushAnywhere.

Lemma partial_group_witness :
  Forall is_uint32 [5; 300] /\ (1 <= length [5; 300]%Z <= 3)%nat
  /\ Enc.index staleEncoder = Z.of_nat (length [5; 300]%Z)
  /\ take (length [5; 300]%Z) (to_list4 (Enc.store staleEncoder)) = [5; 300]
  /\ length (Enc.temp staleEncoder) = 17%nat
  /\ Enc.index paddedEncoder = 4
  /\ to_list4 (Enc.store paddedEncoder)
     = [5; 300] ++ repeat 0 (4 - length [5; 300]%Z)
  /\ length (Enc.temp paddedEncoder) = 17%nat
  /\ exists (c : byte) (body pad : list byte) (b' b4' : Enc.t Buffer),
       Enc.Flush staleEncoder
       = Done ((Z.of_nat (length (c :: body)),
                snd (fst (Write (Enc.w staleEncoder) (c :: body)))), b')
       /\ Enc.w b' = snd (Write (Enc.w staleEncoder) (c :: body))
       /\ Enc.store b' = of_list4 [5; 300]
       /\ Enc.Flush paddedEncoder
          = Done ((Z.of_nat (length (c :: body ++ pad)),
                   snd (fst (Write (Enc.w paddedEncoder) (c :: body ++ pad)))),
                  b4')
       /\ Enc.w b4' = snd (Write (Enc.w paddedEncoder) (c :: body ++ pad))
       /\ length pad = (4 - length [5; 300]%Z)%nat
       /\ (length (c :: body) + (4 - length [5; 300]%Z)
           = length (c :: body ++ pad))%nat
       /\ (forall i : Z,
             Z.of_nat (length [5; 300]%Z) <= i <= 3 -> Dec.slotSize c i = 1)
       /\ decode (length [5; 300]%Z + 2) (c :: body)
          = map got [5; 300] ++ repeat eof 2
       /\ encode [5; 300] = Done (c :: body)
       /\ encode ([5; 300] ++ repeat 0 (4 - length [5; 300]%Z))
          = Done (c :: body ++ pad)
       /\ (forall (full : list Z) (k : nat),
             Forall is_uint32 full -> length full = (4 * k)%nat ->
             exists s : list byte,
               encode full = Done s
               /\ encode (full ++ [5; 300]) = Done (s ++ c :: body)).
Proof.
  assert (Hv : Forall is_uint32 [5; 300])
    by (apply Forall_uint32_check; reflexivity).
  assert (Hl : (1 <= length [5; 300]%Z <= 3)%nat) by (cbn [length]; lia).
  split; [exact Hv|]. split; [exact Hl|]. split; [reflexivity|].
  split; [reflexivity|]. split; [reflexivity|]. split; [reflexivity|].
  split; [reflexivity|]. split; [reflexivity|].
  apply (partial_group staleEncoder paddedEncoder [5; 300] 2 Hv Hl).
  - reflexivity.
  - reflexivity.
  - reflexivity.
  - reflexivity.
  - reflexivity.
  - reflexivity.
Defined.

Lemma control_byte_layout_witness :
  Forall is_uint32 [5; 300] /\ (1 <= length [5; 300]%Z <= 4)%nat
  /\ Enc.index staleEncoder = Z.of_nat (length [5; 300]%Z)
  /\ take (length [5; 300]%Z) (to_list4 (Enc.store staleEncoder)) = [5; 300]
  /\ length (Enc.temp staleEncoder) = 17%nat
  /\ 0 <= 2 <= 3
  /\ exists (c : byte) (b' : Enc.t Buffer),
       Enc.Flush staleEncoder
       = Done ((Z.of_nat (length (c :: concat (map slotBytes [5; 300]))),
                snd (fst (Write (Enc.w staleEncoder)
                            (c :: concat (map slotBytes [5; 300]))))), b')
       /\ Enc.w b'
          = snd (Write (Enc.w staleEncoder)
                   (c :: concat (map slotBytes [5; 300])))
       /\ (let field := Z.land (Z.shiftr (Z_of_byte c) (6 - 2 * 2)) 3 in
           let v := nth (Z.to_nat 2) [5; 300] 0 in
           field = Z.of_nat (length (slotBytes v)) - 1
           /\ 0 <= field <= 3
           /\ Z.testbit (Z_of_byte c) (7 - 2 * 2) = Z.testbit field 1
           /\ Z.testbit (Z_of_byte c) (6 - 2 * 2) = Z.testbit field 0
           /\ Dec.slotSize c 2 = field + 1)
       /\ encode [5; 300] = Done (c :: concat (map slotBytes [5; 300]))
       /\ (forall (full : list Z) (k : nat),
             Forall is_uint32 full -> length full = (4 * k)%nat ->
             exists s : list byte,
               encode full = Done s
               /\ encode (full ++ [5; 300])
                  = Done (s ++ c :: concat (map slotBytes [5; 300]))).
Proof.
  assert (Hv : Forall is_uint32 [5; 300])
    by (apply Forall_uint32_check; reflexivity).
  assert (Hl : (1 <= length [5; 300]%Z <= 4)%nat) by (cbn [length]; lia).
  split; [exact Hv|]. split; [exact Hl|]. split; [reflexivity|].
  split; [reflexivity|]. split; [reflexivity|]. split; [lia|].
  apply (control_byte_layout staleEncoder [5; 300] 2 Hv Hl).
  - reflexivity.
  - reflexivity.
  - reflexivity.
  - lia.
Defined.

(** The stale contents of [staleEncoder] do not show: its flush appends
    [10 05 01 2C] to the buffer: the control byte declares two bytes for
    slot 1 and one byte for each of the others. *)
Lemma staleEncoder_flush :
  (Enc.Flush staleEncoder ≫= fun '(out, b') => Done (out, Enc.w b'))
  = Done ((4, None), [x2a; x10; x05; x01; x2c]).
Proof. vm_compute. reflexivity. Qed.
